(** * EDS resource unmarshalling (xds/internal/xdsclient/xdsresource/unmarshal_eds.go)

    A shallow embedding of the endpoint-discovery (EDS) resource parser of
    grpc-go and the proofs of its validation properties.

    Conventions of the embedding.
    - A Go pointer [*T] is [option T]; [None] is the nil pointer.  The
      protobuf getters ([GetX]) are nil-safe exactly as the generated Go code
      is, and return the zero value on a nil receiver.
    - [uint32] values are carried as [N], [int32] enumeration values and
      Go [int]s as [Z]; the one integer conversion of the file, [uint32(i)],
      is written out as reduction modulo 2^32.
    - A Go function returning [(T, error)] returns a pair [T * option Error];
      [None] is the nil error.  The text of an error is abstracted to a
      constructor of [Error] that keeps the values the format string prints.
    - A Go call either returns or panics: [Go A].
    - [map[uint32]map[string]bool] is a [gmap N (gset string)]: the inner
      maps only ever hold [true], i.e. they are sets.
    - Logging ([logger.Infof], [logger.Warningf]) has no influence on any
      returned value and is left out. *)

From stdpp Require Import base numbers option list strings gmap fin_sets.
From Stdlib Require Import Ascii DecimalString.

Set Warnings "-clear-no-such-hyp".

Local Open Scope N_scope.

(** ** Outcome of a Go call *)

Inductive Go (A : Type) : Type :=
| Returns (a : A)
| Panics.
Arguments Returns {A} a.
Arguments Panics {A}.

#[global] Instance Go_ret : MRet Go := fun A a => Returns a.
#[global] Instance Go_bind : MBind Go := fun A B k c =>
  match c with
  | Returns a => k a
  | Panics => Panics
  end.

(** Field selection through a pointer, [p.f]: a nil receiver panics. *)
Definition deref {A B : Type} (p : option A) (f : A → B) : Go B :=
  match p with
  | Some a => Returns (f a)
  | None => Panics
  end.

(** ** The protobuf messages (go-control-plane, wrapperspb, anypb)

    Only the fields the parser reads are kept. *)

Module pb.

(** anypb.Any *)
Record Any := { TypeUrl : string; Value : list Byte.byte }.

(** wrapperspb.UInt32Value *)
Record UInt32Value := { UValue : N }.

(** core.v3.SocketAddress; [PortValue] is 0 when the port specifier is a
    named port. *)
Record SocketAddress := { SAddress : string; PortValue : N }.

(** core.v3.Address: the [address] oneof holds a socket address or not. *)
Record Address := { ASocketAddress : option SocketAddress }.

(** endpoint.v3.Endpoint *)
Record Endpoint := { EAddress : option Address }.

(** endpoint.v3.LbEndpoint: the [host_identifier] oneof holds an endpoint
    or not; [HealthStatus] is the raw core.v3.HealthStatus code. *)
Record LbEndpoint := {
  LEndpoint : option Endpoint;
  HealthStatus : Z;
  LLoadBalancingWeight : option UInt32Value
}.

(** core.v3.Locality *)
Record Locality := { Region : string; Zone : string; SubZone : string }.

(** endpoint.v3.LocalityLbEndpoints *)
Record LocalityLbEndpoints := {
  LLocality : option Locality;
  LbEndpoints : list (option LbEndpoint);
  LoadBalancingWeight : option UInt32Value;
  Priority : N
}.

(** type.v3.FractionalPercent; [Denominator] is the raw
    FractionalPercent_DenominatorType code. *)
Record FractionalPercent := { Numerator : N; Denominator : Z }.

(** endpoint.v3.ClusterLoadAssignment.Policy.DropOverload *)
Record DropOverload := {
  Category : string;
  DropPercentage : option FractionalPercent
}.

(** endpoint.v3.ClusterLoadAssignment.Policy *)
Record Policy := { DropOverloads : list (option DropOverload) }.

(** endpoint.v3.ClusterLoadAssignment *)
Record ClusterLoadAssignment := {
  ClusterName : string;
  Endpoints : list (option LocalityLbEndpoints);
  CPolicy : option Policy
}.

(** The enumeration constants of percent.pb.go
    ([enum DenominatorType { HUNDRED = 0; TEN_THOUSAND = 1; MILLION = 2; }]):
    HUNDRED is the zero value of the type, the value of a base that is not
    set and the value [GetDenominator] returns on a nil receiver. *)
Definition FractionalPercent_HUNDRED : Z := 0.
Definition FractionalPercent_TEN_THOUSAND : Z := 1.
Definition FractionalPercent_MILLION : Z := 2.

(** The enumeration constants of health_check.pb.go used below
    ([UNKNOWN = 0; HEALTHY = 1]). *)
Definition HealthStatus_UNKNOWN : Z := 0.
Definition HealthStatus_HEALTHY : Z := 1.

(** *** Generated getters: the field, or the zero value on nil. *)

Definition get {A B : Type} (zero : B) (f : A → B) (x : option A) : B :=
  match x with
  | Some a => f a
  | None => zero
  end.

Definition GetTypeUrl : option Any → string := get "" TypeUrl.
Definition GetValue' : option Any → list Byte.byte := get [] Value.
Definition GetValue : option UInt32Value → N := get 0 UValue.
Definition GetAddress' : option SocketAddress → string := get "" SAddress.
Definition GetPortValue : option SocketAddress → N := get 0 PortValue.
Definition GetSocketAddress : option Address → option SocketAddress :=
  get None ASocketAddress.
Definition GetAddress : option Endpoint → option Address := get None EAddress.
Definition GetEndpoint : option LbEndpoint → option Endpoint :=
  get None LEndpoint.
Definition GetHealthStatus : option LbEndpoint → Z :=
  get HealthStatus_UNKNOWN HealthStatus.
Definition GetLoadBalancingWeight' : option LbEndpoint → option UInt32Value :=
  get None LLoadBalancingWeight.
Definition GetLocality : option LocalityLbEndpoints → option Locality :=
  get None LLocality.
Definition GetLbEndpoints : option LocalityLbEndpoints → list (option LbEndpoint) :=
  get [] LbEndpoints.
Definition GetLoadBalancingWeight : option LocalityLbEndpoints → option UInt32Value :=
  get None LoadBalancingWeight.
Definition GetPriority : option LocalityLbEndpoints → N := get 0 Priority.
Definition GetNumerator : option FractionalPercent → N := get 0 Numerator.
Definition GetDenominator : option FractionalPercent → Z :=
  get FractionalPercent_HUNDRED Denominator.
Definition GetCategory : option DropOverload → string := get "" Category.
Definition GetDropPercentage : option DropOverload → option FractionalPercent :=
  get None DropPercentage.
Definition GetDropOverloads : option Policy → list (option DropOverload) :=
  get [] DropOverloads.
Definition GetPolicy : option ClusterLoadAssignment → option Policy :=
  get None CPolicy.
Definition GetClusterName : option ClusterLoadAssignment → string :=
  get "" ClusterName.

End pb.

(** ** The native types of the package (type_eds.go, xds/internal) *)

(** internal.LocalityID *)
Record LocalityID := { Region : string; Zone : string; SubZone : string }.

(** OverloadDropConfig *)
Record OverloadDropConfig := {
  Category : string;
  Numerator : N;
  Denominator : N
}.

(** Endpoint; [HealthStatus] has type EndpointHealthStatus, an int32. *)
Record Endpoint := {
  EAddress : string;
  EHealthStatus : Z;
  EWeight : N
}.

(** Locality *)
Record Locality := {
  Endpoints : list Endpoint;
  ID : LocalityID;
  Priority : N;
  Weight : N
}.

(** EndpointsUpdate; [Raw] points to the resource the update came from. *)
Record EndpointsUpdate := {
  Drops : list OverloadDropConfig;
  Localities : list Locality;
  Raw : option pb.Any
}.

(** [EndpointsUpdate{}] *)
Definition EndpointsUpdate_zero : EndpointsUpdate :=
  {| Drops := []; Localities := []; Raw := None |}.

(** The errors of the file, one constructor per [fmt.Errorf], each with the
    values its format string prints. *)
Inductive Error : Type :=
| ErrUnwrap (cause : string)
| ErrResourceType (typeUrl : string)
| ErrUnmarshal (cause : string)
| ErrNoLocalityID (locality : option pb.LocalityLbEndpoints)
| ErrDuplicateLocality (lidStr : string) (priority : N)
| ErrZeroWeightEndpoint (lbEndpoint : option pb.LbEndpoint)
| ErrMissingPriority (i : Z) (priorities : gmap N (gset string)).

(** ** Library primitives (strconv, net) *)

(** strconv.Itoa: the decimal numeral of a Go [int]. *)
Definition Itoa (i : Z) : string := NilZero.string_of_int (Z.to_int i).

(** Whether the byte [c] occurs in [s] ([bytealg.IndexByteString(s, c) >= 0]). *)
Fixpoint has_byte (c : Ascii.ascii) (s : string) : bool :=
  match s with
  | EmptyString => false
  | String c' s' => if Ascii.eqb c' c then true else has_byte c s'
  end.

(** net.JoinHostPort: a host that contains a colon is put in brackets. *)
Definition JoinHostPort (host port : string) : string :=
  if has_byte ":"%char host
  then "[" +:+ host +:+ "]:" +:+ port
  else host +:+ ":" +:+ port.

(** The conversion [uint32(i)] of a Go [int]: truncation to 32 bits. *)
Definition uint32 (i : Z) : N := Z.to_N (i `mod` 2 ^ 32).

(** ** Loops with early exit

    A [for] loop whose body may [return]: an iteration either falls through
    to the next one with the updated state ([continue] and the end of the
    body), or leaves the function with its return value. *)

Inductive Loop (S R : Type) : Type :=
| Falls (s : S)
| Exits (r : R).
Arguments Falls {S R} s.
Arguments Exits {S R} r.

Fixpoint for_range {A S R : Type} (body : S → A → Loop S R) (s : S) (l : list A)
  : Loop S R :=
  match l with
  | [] => Falls s
  | a :: l' =>
      match body s a with
      | Falls s' => for_range body s' l'
      | Exits r => Exits r
      end
  end.

(** ** The functions of unmarshal_eds.go *)

Definition parseAddress (socketAddress : option pb.SocketAddress) : string :=
  JoinHostPort (pb.GetAddress' socketAddress)
               (Itoa (Z.of_N (pb.GetPortValue socketAddress))).

Definition parseDropPolicy (dropPolicy : option pb.DropOverload) : OverloadDropConfig :=
  let percentage := pb.GetDropPercentage dropPolicy in
  let numerator := pb.GetNumerator percentage in
  let denominator : N :=
    let d := pb.GetDenominator percentage in
    if decide (d = pb.FractionalPercent_HUNDRED) then 100
    else if decide (d = pb.FractionalPercent_TEN_THOUSAND) then 10000
    else if decide (d = pb.FractionalPercent_MILLION) then 1000000
    else 0 in
  {| Category := pb.GetCategory dropPolicy;
     Numerator := numerator;
     Denominator := denominator |}.

(** One iteration of the loop of [parseEndpoints]; the state is the slice
    [endpoints]. *)
Definition parseEndpoints_body (endpoints : list Endpoint)
    (lbEndpoint : option pb.LbEndpoint)
  : Loop (list Endpoint) (list Endpoint * option Error) :=
  let weight := pb.GetValue (pb.GetLoadBalancingWeight' lbEndpoint) in
  if decide (weight = 0) then
    Exits ([], Some (ErrZeroWeightEndpoint lbEndpoint))
  else
    Falls (endpoints ++ [
      {| EHealthStatus := pb.GetHealthStatus lbEndpoint;
         EAddress := parseAddress
           (pb.GetSocketAddress (pb.GetAddress (pb.GetEndpoint lbEndpoint)));
         EWeight := weight |} ]).

Definition parseEndpoints (lbEndpoints : list (option pb.LbEndpoint))
  : list Endpoint * option Error :=
  match for_range parseEndpoints_body [] lbEndpoints with
  | Exits r => r
  | Falls endpoints => (endpoints, None)
  end.

Section Parser.

(** [internal.LocalityID.ToString] (xds/internal): the canonical string of
    a locality identity.  Its error result is discarded by the caller. *)
Variable ToString : LocalityID → string.

(** One iteration of the locality loop of [parseEDSRespProto]; the state is
    [ret] and the map [priorities].  The inner map fetched into
    [localitiesWithPriority] is shared with [priorities]: the store
    [localitiesWithPriority[lidStr] = true] is a store into [priorities]. *)
Definition parseEDSRespProto_body
    (st : EndpointsUpdate * gmap N (gset string))
    (locality : option pb.LocalityLbEndpoints)
  : Loop (EndpointsUpdate * gmap N (gset string))
         (EndpointsUpdate * option Error) :=
  let '(ret, priorities) := st in
  match pb.GetLocality locality with
  | None => Exits (EndpointsUpdate_zero, Some (ErrNoLocalityID locality))
  | Some l =>
      let weight := pb.GetValue (pb.GetLoadBalancingWeight locality) in
      if decide (weight = 0) then Falls (ret, priorities)
      else
        let lid := {| Region := pb.Region l;
                      Zone := pb.Zone l;
                      SubZone := pb.SubZone l |} in
        let priority := pb.GetPriority locality in
        let '(localitiesWithPriority, priorities) :=
          match priorities !! priority with
          | None => ((∅ : gset string), <[priority := ∅]> priorities)
          | Some s => (s, priorities)
          end in
        let lidStr := ToString lid in
        if decide (lidStr ∈ localitiesWithPriority) then
          Exits (EndpointsUpdate_zero,
                 Some (ErrDuplicateLocality lidStr priority))
        else
          let priorities :=
            <[priority := {[lidStr]} ∪ localitiesWithPriority]> priorities in
          let '(endpoints, err) := parseEndpoints (pb.GetLbEndpoints locality) in
          match err with
          | Some e => Exits (EndpointsUpdate_zero, Some e)
          | None =>
              Falls ({| Drops := Drops ret;
                        Localities := Localities ret ++ [
                          {| ID := lid;
                             Endpoints := endpoints;
                             Weight := pb.GetValue
                               (pb.GetLoadBalancingWeight locality);
                             Priority := priority |} ];
                        Raw := Raw ret |},
                     priorities)
          end
  end.

(** One iteration of the priority loop, at index [i]; no state. *)
Definition priority_body (priorities : gmap N (gset string)) (_ : unit) (i : Z)
  : Loop unit (EndpointsUpdate * option Error) :=
  match priorities !! uint32 i with
  | None => Exits (EndpointsUpdate_zero, Some (ErrMissingPriority i priorities))
  | Some _ => Falls ()
  end.

Definition parseEDSRespProto (m : option pb.ClusterLoadAssignment)
  : Go (EndpointsUpdate * option Error) :=
  let ret := EndpointsUpdate_zero in
  let ret :=
    foldl (fun ret dropPolicy =>
             {| Drops := Drops ret ++ [parseDropPolicy dropPolicy];
                Localities := Localities ret;
                Raw := Raw ret |})
          ret (pb.GetDropOverloads (pb.GetPolicy m)) in
  let priorities : gmap N (gset string) := ∅ in
  endpoints ← deref m pb.Endpoints;
  match for_range parseEDSRespProto_body (ret, priorities) endpoints with
  | Exits r => mret r
  | Falls (ret, priorities) =>
      match for_range (priority_body priorities) ()
              (seqZ 0 (Z.of_nat (size priorities))) with
      | Exits r => mret r
      | Falls _ => mret (ret, None)
      end
  end.

(** The collaborators of [unmarshalEndpointsResource]: [unwrapResource]
    and [IsEndpointsResource] of the package, and [proto.Unmarshal] into a
    fresh ClusterLoadAssignment (the message after the call, and the
    error). *)
Variable unwrapResource : option pb.Any → option pb.Any * option string.
Variable IsEndpointsResource : string → bool.
Variable Unmarshal : list Byte.byte → pb.ClusterLoadAssignment * option string.

Definition unmarshalEndpointsResource (r : option pb.Any)
  : Go (string * EndpointsUpdate * option Error) :=
  let '(r, err) := unwrapResource r in
  match err with
  | Some e => mret ("", EndpointsUpdate_zero, Some (ErrUnwrap e))
  | None =>
      if negb (IsEndpointsResource (pb.GetTypeUrl r)) then
        mret ("", EndpointsUpdate_zero, Some (ErrResourceType (pb.GetTypeUrl r)))
      else
        let '(cla, err) := Unmarshal (pb.GetValue' r) in
        let cla := Some cla in
        match err with
        | Some e => mret ("", EndpointsUpdate_zero, Some (ErrUnmarshal e))
        | None =>
            '(u, err) ← parseEDSRespProto cla;
            match err with
            | Some e => mret (pb.GetClusterName cla, EndpointsUpdate_zero, Some e)
            | None =>
                let u := {| Drops := Drops u;
                            Localities := Localities u;
                            Raw := r |} in
                mret (pb.GetClusterName cla, u, None)
            end
        end
  end.

End Parser.

(** ** Vocabulary of the properties *)

(** The declared weight of a locality entry and of an endpoint entry. *)
Definition weightOf (locality : option pb.LocalityLbEndpoints) : N :=
  pb.GetValue (pb.GetLoadBalancingWeight locality).

Definition endpointWeight (lbEndpoint : option pb.LbEndpoint) : N :=
  pb.GetValue (pb.GetLoadBalancingWeight' lbEndpoint).

(** An entry without identity: [locality.GetLocality() == nil]. *)
Definition lacksID (locality : option pb.LocalityLbEndpoints) : Prop :=
  pb.GetLocality locality = None.

(** A surviving entry: it carries an identity and its weight is not zero. *)
Definition surviving (locality : option pb.LocalityLbEndpoints) : bool :=
  match pb.GetLocality locality with
  | Some _ => negb (weightOf locality =? 0)
  | None => false
  end.

(** The identity of an entry, and its canonical string. *)
Definition localityID (locality : option pb.LocalityLbEndpoints) : LocalityID :=
  match pb.GetLocality locality with
  | Some l => {| Region := pb.Region l; Zone := pb.Zone l; SubZone := pb.SubZone l |}
  | None => {| Region := ""; Zone := ""; SubZone := "" |}
  end.

Definition lidStrOf (ToString : LocalityID → string)
    (locality : option pb.LocalityLbEndpoints) : string :=
  ToString (localityID locality).

(** An entry with an endpoint of weight zero. *)
Definition hasZeroWeightEndpoint (locality : option pb.LocalityLbEndpoints) : Prop :=
  ∃ lbEndpoint, lbEndpoint ∈ pb.GetLbEndpoints locality ∧ endpointWeight lbEndpoint = 0.

(** Two surviving entries, at positions [i < j], with the same identity
    string at the same priority. *)
Definition duplicatePair (ToString : LocalityID → string)
    (localities : list (option pb.LocalityLbEndpoints)) (i j : nat) : Prop :=
  ∃ e1 e2,
    (i < j)%nat ∧ localities !! i = Some e1 ∧ localities !! j = Some e2 ∧
    surviving e1 = true ∧ surviving e2 = true ∧
    lidStrOf ToString e1 = lidStrOf ToString e2 ∧
    pb.GetPriority e1 = pb.GetPriority e2.

(** The priorities of the surviving entries of a message. *)
Definition survivingPriorities (localities : list (option pb.LocalityLbEndpoints))
  : gset N :=
  list_to_set (pb.GetPriority <$> filter (λ e, surviving e = true) localities).

(** A gap: a priority that no surviving entry has, below one that some has. *)
Definition hasGap (X : gset N) : Prop := ∃ p q, p < q ∧ q ∈ X ∧ p ∉ X.

(** The [Endpoint] and the [Locality] built from an entry. *)
Definition endpointOf (lbEndpoint : option pb.LbEndpoint) : Endpoint :=
  {| EHealthStatus := pb.GetHealthStatus lbEndpoint;
     EAddress := parseAddress
       (pb.GetSocketAddress (pb.GetAddress (pb.GetEndpoint lbEndpoint)));
     EWeight := endpointWeight lbEndpoint |}.

Definition localityOf (locality : option pb.LocalityLbEndpoints) : Locality :=
  {| ID := localityID locality;
     Endpoints := endpointOf <$> pb.GetLbEndpoints locality;
     Weight := weightOf locality;
     Priority := pb.GetPriority locality |}.

(** The identity strings recorded at a priority, and the recording of one:
    lines 131-135 and 140 of the source together. *)
Definition seenAt (priorities : gmap N (gset string)) (p : N) : gset string :=
  default ∅ (priorities !! p).

Definition record (priorities : gmap N (gset string)) (p : N) (s : string)
  : gmap N (gset string) :=
  <[p := {[s]} ∪ seenAt priorities p]> priorities.

(** The result of a normal return with an error: the zero update. *)
Definition failsWith (e : Error) : Go (EndpointsUpdate * option Error) :=
  Returns (EndpointsUpdate_zero, Some e).

(** The drop configurations of a message, and the update a successful parse
    of it returns. *)
Definition dropsOf (m : pb.ClusterLoadAssignment) : list OverloadDropConfig :=
  parseDropPolicy <$> pb.GetDropOverloads (pb.GetPolicy (Some m)).

Definition afterDrops (m : pb.ClusterLoadAssignment) : EndpointsUpdate :=
  {| Drops := dropsOf m; Localities := []; Raw := None |}.

Definition successUpdate (m : pb.ClusterLoadAssignment) : EndpointsUpdate :=
  {| Drops := dropsOf m;
     Localities := localityOf <$> filter (λ e, surviving e = true) (pb.Endpoints m);
     Raw := None |}.

(** What the locality loop accepts: every entry has an identity, no surviving
    entry has an endpoint of weight zero, no two surviving entries share an
    identity string and a priority. *)
Definition allIdentified (ls : list (option pb.LocalityLbEndpoints)) : Prop :=
  Forall (λ e, ¬ lacksID e) ls.

Definition noZeroWeightEndpoint (ls : list (option pb.LocalityLbEndpoints)) : Prop :=
  Forall (λ e, surviving e = true → ¬ hasZeroWeightEndpoint e) ls.

Definition noDuplicate (ToString : LocalityID → string)
    (ls : list (option pb.LocalityLbEndpoints)) : Prop :=
  ∀ i j, ¬ duplicatePair ToString ls i j.

(** The key of duplicate detection: the priority and the identity string. *)
Definition localityKey (ToString : LocalityID → string)
    (locality : option pb.LocalityLbEndpoints) : N * string :=
  (pb.GetPriority locality, lidStrOf ToString locality).

(** Executable forms of the three conditions. *)
Definition allIdentifiedb (ls : list (option pb.LocalityLbEndpoints)) : bool :=
  forallb (λ e, match pb.GetLocality e with Some _ => true | None => false end) ls.

Definition noZeroWeightEndpointb (ls : list (option pb.LocalityLbEndpoints)) : bool :=
  forallb (λ e, forallb (λ ep, negb (endpointWeight ep =? 0)) (pb.GetLbEndpoints e)) ls.

Definition noDuplicateb (ToString : LocalityID → string)
    (ls : list (option pb.LocalityLbEndpoints)) : bool :=
  bool_decide (NoDup (localityKey ToString <$> filter (λ e, surviving e = true) ls)).

(** The key of a locality of an update, and the errors of the locality
    loop. *)
Definition updateKey (ToString : LocalityID → string) (l : Locality) : N * string :=
  (Priority l, ToString (ID l)).

Definition isLocalityError (err : Error) : Prop :=
  match err with
  | ErrNoLocalityID _ | ErrDuplicateLocality _ _ | ErrZeroWeightEndpoint _ => True
  | _ => False
  end.

(** A message with the given name, policy and locality entries. *)
Definition messageOf (name : string) (policy : option pb.Policy)
    (ls : list (option pb.LocalityLbEndpoints)) : pb.ClusterLoadAssignment :=
  {| pb.ClusterName := name; pb.Endpoints := ls; pb.CPolicy := policy |}.

(** Two locality entries that differ at most in the addresses and the health
    statuses of their endpoints: same identity, weight and priority, and the
    same endpoint weights in the same order. *)
Definition sameUpToEndpoints (e e' : option pb.LocalityLbEndpoints) : Prop :=
  pb.GetLocality e = pb.GetLocality e' ∧
  weightOf e = weightOf e' ∧
  pb.GetPriority e = pb.GetPriority e' ∧
  endpointWeight <$> pb.GetLbEndpoints e = endpointWeight <$> pb.GetLbEndpoints e'.

(** ** The batch layer *)

(** EndpointsUpdateErrTuple: the outcome recorded for one resource. *)
Record EndpointsUpdateErrTuple := {
  Update : EndpointsUpdate;
  Err : option Error
}.

(** Modelled from the spec: [processAllResources], the batch processor that
    [UnmarshalEndpoints] hands its map to, is not among the sources at hand.
    Following the description of the batch processor: the resources of the
    response are parsed one after the other; the outcome of each, update or
    error, is recorded under the name the parser returns for it; a failure
    does not stop the batch; a later resource of the same name overwrites an
    earlier one.  The metadata and the error of the response as a whole are
    left out. *)
Definition processAllResources
    (unmarshal : option pb.Any → Go (string * EndpointsUpdate * option Error))
    (resources : list (option pb.Any))
    (update : gmap string EndpointsUpdateErrTuple)
  : Go (gmap string EndpointsUpdateErrTuple) :=
  foldl (λ acc r,
           update ← acc;
           '(name, u, err) ← unmarshal r;
           mret (<[name := {| Update := u; Err := err |}]> update))
        (mret update) resources.

Definition UnmarshalEndpoints
    (ToString : LocalityID → string)
    (unwrapResource : option pb.Any → option pb.Any * option string)
    (IsEndpointsResource : string → bool)
    (Unmarshal : list Byte.byte → pb.ClusterLoadAssignment * option string)
    (resources : list (option pb.Any))
  : Go (gmap string EndpointsUpdateErrTuple) :=
  let update : gmap string EndpointsUpdateErrTuple := ∅ in
  processAllResources
    (unmarshalEndpointsResource ToString unwrapResource IsEndpointsResource Unmarshal)
    resources update.

(** ** Sample messages and stand-ins for the collaborators

    Used to run the parser on concrete inputs. *)

Module Sample.

(** An endpoint at a socket address. *)
Definition lbEndpoint (host : string) (port weight : N) (health : Z)
  : option pb.LbEndpoint :=
  Some {| pb.LEndpoint := Some {| pb.EAddress := Some {| pb.ASocketAddress :=
            Some {| pb.SAddress := host; pb.PortValue := port |} |} |};
          pb.HealthStatus := health;
          pb.LLoadBalancingWeight := Some {| pb.UValue := weight |} |}.

(** The endpoint 10.0.0.1:80, healthy, of the given weight. *)
Definition ep (weight : N) : option pb.LbEndpoint :=
  lbEndpoint "10.0.0.1" 80 weight pb.HealthStatus_HEALTHY.

(** A locality entry with an identity. *)
Definition locality (id : pb.Locality) (priority weight : N)
    (eps : list (option pb.LbEndpoint)) : option pb.LocalityLbEndpoints :=
  Some {| pb.LLocality := Some id;
          pb.LbEndpoints := eps;
          pb.LoadBalancingWeight := Some {| pb.UValue := weight |};
          pb.Priority := priority |}.

(** A locality entry without identity. *)
Definition anonymous (priority weight : N) (eps : list (option pb.LbEndpoint))
  : option pb.LocalityLbEndpoints :=
  Some {| pb.LLocality := None;
          pb.LbEndpoints := eps;
          pb.LoadBalancingWeight := Some {| pb.UValue := weight |};
          pb.Priority := priority |}.

Definition region (r : string) : pb.Locality :=
  {| pb.Region := r; pb.Zone := ""; pb.SubZone := "" |}.

Definition message (ls : list (option pb.LocalityLbEndpoints))
  : pb.ClusterLoadAssignment :=
  {| pb.ClusterName := "cluster"; pb.Endpoints := ls; pb.CPolicy := None |}.

Definition dropOverload (category : string) (numerator : N) (base : Z)
  : option pb.DropOverload :=
  Some {| pb.Category := category;
          pb.DropPercentage :=
            Some {| pb.Numerator := numerator; pb.Denominator := base |} |}.

(** A stand-in for the canonical string of an identity. *)
Definition ToString (lid : LocalityID) : string :=
  Region lid +:+ "/" +:+ Zone lid +:+ "/" +:+ SubZone lid.

(** Stand-ins for the envelope: a resource of the wrapper type is refused,
    any other is returned as it is; the payload is a one-byte tag that
    selects a message, anything else does not decode. *)
Definition wrapperURL : string := "type.googleapis.com/envoy.service.discovery.v3.Resource".
Definition endpointsURL : string :=
  "type.googleapis.com/envoy.config.endpoint.v3.ClusterLoadAssignment".

Definition unwrapResource (r : option pb.Any) : option pb.Any * option string :=
  if String.eqb (pb.GetTypeUrl r) wrapperURL
  then (None, Some "cannot parse the wrapped resource")
  else (r, None).

Definition IsEndpointsResource (url : string) : bool := String.eqb url endpointsURL.

Definition good : pb.ClusterLoadAssignment :=
  message [locality (region "A") 0 1 [ep 1]].
Definition anonymousOnly : pb.ClusterLoadAssignment :=
  message [anonymous 0 1 [ep 1]].
Definition duplicated : pb.ClusterLoadAssignment :=
  message [locality (region "A") 0 1 [ep 1]; locality (region "A") 0 1 [ep 1]].
Definition zeroEndpoint : pb.ClusterLoadAssignment :=
  message [locality (region "A") 0 1 [ep 0]].
Definition gapped : pb.ClusterLoadAssignment :=
  message [locality (region "A") 0 1 [ep 1]; locality (region "B") 2 1 [ep 1]].

Definition anonymousSecond : pb.ClusterLoadAssignment :=
  message [locality (region "A") 0 1 [ep 1]; anonymous 3 0 []].

Definition zeroThenDuplicate : pb.ClusterLoadAssignment :=
  message [locality (region "A") 0 1 [ep 0]; locality (region "A") 0 1 [ep 1]].

Definition duplicateWithZero : pb.ClusterLoadAssignment :=
  message [locality (region "A") 0 1 [ep 1]; locality (region "A") 0 1 [ep 0]].
Definition anonymousThenZero : pb.ClusterLoadAssignment :=
  message [anonymous 0 1 [ep 1]; locality (region "A") 0 1 [ep 0]].
Definition zeroSecond : pb.ClusterLoadAssignment :=
  message [locality (region "A") 0 1 [ep 1]; locality (region "B") 0 1 [ep 1; ep 0]].

Definition duplicateThenGap : pb.ClusterLoadAssignment :=
  message [locality (region "A") 0 1 [ep 1]; locality (region "A") 0 1 [ep 1];
           locality (region "B") 2 1 [ep 1]].

Definition droppingAnonymous : pb.ClusterLoadAssignment :=
  {| pb.ClusterName := "cluster";
     pb.Endpoints := [anonymous 0 1 [ep 1]];
     pb.CPolicy := Some {| pb.DropOverloads :=
       [dropOverload "lb" 5 pb.FractionalPercent_HUNDRED] |} |}.
Definition dropping : pb.ClusterLoadAssignment :=
  {| pb.ClusterName := "cluster";
     pb.Endpoints := [locality (region "A") 0 1 [ep 1]];
     pb.CPolicy := Some {| pb.DropOverloads :=
       [dropOverload "lb" 5 pb.FractionalPercent_HUNDRED;
        dropOverload "throttle" 30 pb.FractionalPercent_TEN_THOUSAND;
        dropOverload "shed" 7 pb.FractionalPercent_MILLION;
        dropOverload "other" 9 3] |} |}.

Definition twoTiers : pb.ClusterLoadAssignment :=
  message [locality (region "A") 1 3 [ep 1];
           locality (region "C") 5 0 [];
           locality (region "A") 0 2 [ep 1; ep 4];
           locality (region "B") 1 1 []].

Definition Unmarshal (b : list Byte.byte)
  : pb.ClusterLoadAssignment * option string :=
  match b with
  | [Byte.x01] => (good, None)
  | [Byte.x02] => (anonymousOnly, None)
  | [Byte.x03] => (duplicated, None)
  | [Byte.x04] => (zeroEndpoint, None)
  | [Byte.x05] => (gapped, None)
  | _ => (message [], Some "cannot parse the message")
  end.

Definition resource (url : string) (tag : Byte.byte) : option pb.Any :=
  Some {| pb.TypeUrl := url; pb.Value := [tag] |}.

Definition unmarshalEndpointsResource :=
  unmarshalEndpointsResource ToString unwrapResource IsEndpointsResource Unmarshal.

End Sample.

(** * Properties *)

(** ** Loops *)

Lemma for_range_app {A S R : Type} (body : S → A → Loop S R) s l1 l2 :
  for_range body s (l1 ++ l2) =
  match for_range body s l1 with
  | Falls s' => for_range body s' l2
  | Exits r => Exits r
  end.
Proof.
  revert s. induction l1 as [|a l1 IH]; intros s; simpl; [done|].
  destruct (body s a); [apply IH | done].
Qed.

(** ** parseEndpoints *)

Lemma parseEndpoints_body_eq endpoints lbEndpoint :
  parseEndpoints_body endpoints lbEndpoint =
  if decide (endpointWeight lbEndpoint = 0)
  then Exits ([], Some (ErrZeroWeightEndpoint lbEndpoint))
  else Falls (endpoints ++ [endpointOf lbEndpoint]).
Proof. reflexivity. Qed.

Lemma parseEndpoints_loop acc lbEndpoints :
  match for_range parseEndpoints_body acc lbEndpoints with
  | Falls endpoints =>
      endpoints = acc ++ (endpointOf <$> lbEndpoints) ∧
      Forall (λ ep, endpointWeight ep ≠ 0) lbEndpoints
  | Exits r =>
      ∃ ep, r = ([], Some (ErrZeroWeightEndpoint ep)) ∧
            ep ∈ lbEndpoints ∧ endpointWeight ep = 0
  end.
Proof.
  revert acc. induction lbEndpoints as [|ep eps IH]; intros acc; simpl.
  - by rewrite app_nil_r.
  - rewrite parseEndpoints_body_eq. case_decide as Hw.
    + exists ep. split_and!; [done | by left | done].
    + specialize (IH (acc ++ [endpointOf ep])).
      destruct (for_range _ _ eps) as [endpoints|r].
      * destruct IH as [-> Hall]. split; [by rewrite <-app_assoc | by constructor].
      * destruct IH as (ep' & -> & Hin & Hz). exists ep'.
        split_and!; [done | by right | done].
Qed.

(** [parseEndpoints] succeeds exactly when no endpoint has weight zero, with
    one [Endpoint] per entry, in order; it fails with the zero-weight error
    otherwise, and returns no endpoints then. *)
Lemma parseEndpoints_spec lbEndpoints :
  (Forall (λ ep, endpointWeight ep ≠ 0) lbEndpoints ∧
   parseEndpoints lbEndpoints = (endpointOf <$> lbEndpoints, None)) ∨
  (∃ ep, ep ∈ lbEndpoints ∧ endpointWeight ep = 0 ∧
         parseEndpoints lbEndpoints = ([], Some (ErrZeroWeightEndpoint ep))).
Proof.
  unfold parseEndpoints.
  pose proof (parseEndpoints_loop [] lbEndpoints) as H.
  destruct (for_range _ _ lbEndpoints) as [endpoints|r].
  - left. destruct H as [-> Hall]. done.
  - right. destruct H as (ep & -> & Hin & Hz). by exists ep.
Qed.

Lemma for_range_exits {A S R : Type} (body : S → A → Loop S R) s l r :
  for_range body s l = Exits r →
  ∃ pre a suf s',
    l = pre ++ a :: suf ∧ for_range body s pre = Falls s' ∧ body s' a = Exits r.
Proof.
  revert s. induction l as [|a l IH]; intros s; simpl; [done|].
  destruct (body s a) as [s1|r1] eqn:Hb.
  - intros (pre & a' & suf & s' & -> & Hpre & Ha)%IH.
    exists (a :: pre), a', suf, s'. simpl. by rewrite Hb.
  - intros [= ->]. by exists [], a, l, s.
Qed.

(** ** The locality loop of parseEDSRespProto *)

Lemma seenAt_record priorities p s q :
  seenAt (record priorities p s) q =
  if decide (p = q) then {[s]} ∪ seenAt priorities p else seenAt priorities q.
Proof.
  unfold seenAt, record. case_decide as Hpq.
  - subst q. by rewrite lookup_insert_eq.
  - by rewrite lookup_insert_ne.
Qed.

Lemma dom_record priorities p s :
  dom (record priorities p s) = {[p]} ∪ dom priorities.
Proof. unfold record. by rewrite dom_insert_L. Qed.

Lemma seenAt_empty p : seenAt ∅ p = ∅.
Proof. unfold seenAt. by rewrite lookup_empty. Qed.

Lemma surviving_true e :
  surviving e = true ↔ ¬ lacksID e ∧ weightOf e ≠ 0.
Proof.
  unfold surviving, lacksID. destruct (pb.GetLocality e).
  - rewrite negb_true_iff, N.eqb_neq. split; [by intros ?; split | by intros [_ ?]].
  - split; [done | by intros [? _]].
Qed.

Lemma surviving_cons_false e (ls : list (option pb.LocalityLbEndpoints)) :
  surviving e ≠ true →
  filter (λ e, surviving e = true) (e :: ls) = filter (λ e, surviving e = true) ls.
Proof. intros. by rewrite filter_cons_False. Qed.

Lemma surviving_cons_true e (ls : list (option pb.LocalityLbEndpoints)) :
  surviving e = true →
  filter (λ e, surviving e = true) (e :: ls) =
  e :: filter (λ e, surviving e = true) ls.
Proof. intros. by rewrite filter_cons_True. Qed.

Lemma survivingPriorities_cons e ls :
  survivingPriorities (e :: ls) =
  if surviving e then {[pb.GetPriority e]} ∪ survivingPriorities ls
  else survivingPriorities ls.
Proof.
  unfold survivingPriorities. destruct (surviving e) eqn:Hs.
  - by rewrite surviving_cons_true.
  - rewrite surviving_cons_false; [done | congruence].
Qed.

Lemma elem_of_survivingPriorities p ls :
  p ∈ survivingPriorities ls ↔
  ∃ e, e ∈ ls ∧ surviving e = true ∧ pb.GetPriority e = p.
Proof.
  unfold survivingPriorities.
  rewrite elem_of_list_to_set, list_elem_of_fmap. split.
  - intros (e & -> & [Hs Hin]%list_elem_of_filter). by exists e.
  - intros (e & Hin & Hs & <-). exists e. split; [done|].
    by apply list_elem_of_filter.
Qed.

Lemma duplicatePair_cons ToString e ls i j :
  duplicatePair ToString (e :: ls) i j →
  (∃ i' j', i = S i' ∧ j = S j' ∧ duplicatePair ToString ls i' j') ∨
  (∃ j' e2, i = 0%nat ∧ j = S j' ∧ ls !! j' = Some e2 ∧
     surviving e = true ∧ surviving e2 = true ∧
     lidStrOf ToString e = lidStrOf ToString e2 ∧
     pb.GetPriority e = pb.GetPriority e2).
Proof.
  intros (e1 & e2 & Hlt & H1 & H2 & Hs1 & Hs2 & Hid & Hp).
  destruct j as [|j']; [lia|]. destruct i as [|i']; simpl in *.
  - right. injection H1 as ->. by exists j', e2.
  - left. exists i', j'. split_and!; [done..|].
    exists e1, e2. split_and!; [lia | done..].
Qed.

Lemma duplicatePair_app_l ToString pre suf i j :
  duplicatePair ToString pre i j → duplicatePair ToString (pre ++ suf) i j.
Proof.
  intros (e1 & e2 & Hlt & H1 & H2 & Hrest). exists e1, e2.
  split_and!; [done | by apply lookup_app_l_Some | by apply lookup_app_l_Some | ..];
    apply Hrest.
Qed.

(** ** Sets of priorities *)

(** A set of numbers below [n] has at most [n] elements. *)
Lemma size_below (n : nat) : ∀ X : gset N,
  (∀ x, x ∈ X → x < N.of_nat n) → (size X ≤ n)%nat.
Proof.
  induction n as [|k IH]; intros X Hlt.
  - assert (X = ∅) as ->; [|by rewrite size_empty].
    apply set_eq. intros x. split; [|by intros ?%not_elem_of_empty].
    intros Hx%Hlt. lia.
  - pose (Y := X ∖ {[N.of_nat k]}).
    assert (size Y ≤ k)%nat as HY.
    { apply IH. intros y [Hy Hne%not_elem_of_singleton]%elem_of_difference.
      apply Hlt in Hy. lia. }
    assert (X ⊆ Y ∪ {[N.of_nat k]}) as Hsub.
    { intros x Hx. unfold Y. destruct (decide (x = N.of_nat k)) as [->|Hne].
      - apply elem_of_union_r. by apply elem_of_singleton.
      - apply elem_of_union_l, elem_of_difference. split; [done|].
        by apply not_elem_of_singleton. }
    apply subseteq_size in Hsub. rewrite size_union_alt in Hsub.
    assert (size (({[N.of_nat k]} : gset N) ∖ Y) ≤ 1)%nat as H1.
    { rewrite <-(size_singleton (C := gset N) (N.of_nat k)).
      apply subseteq_size. intros x [? _]%elem_of_difference. done. }
    lia.
Qed.

(** A set of [n] elements that holds every number below [n] holds nothing
    else. *)
Lemma below_of_full (n : nat) : ∀ X : gset N,
  (∀ i, (i < n)%nat → N.of_nat i ∈ X) → size X = n →
  ∀ x, x ∈ X → x < N.of_nat n.
Proof.
  induction n as [|k IH]; intros X Hfull Hsize x Hx.
  - apply size_empty_inv in Hsize. apply Hsize in Hx.
    by apply not_elem_of_empty in Hx.
  - pose (Y := X ∖ {[N.of_nat k]}).
    assert (size Y = k) as HY.
    { unfold Y. rewrite size_difference, size_singleton; [lia|].
      intros y ->%elem_of_singleton. apply Hfull. lia. }
    destruct (decide (x = N.of_nat k)) as [->|Hne]; [lia|].
    assert (x < N.of_nat k); [|lia].
    apply (IH Y); [|done|].
    + intros i Hi. apply elem_of_difference. split; [apply Hfull; lia|].
      apply not_elem_of_singleton. lia.
    + apply elem_of_difference. split; [done|]. by apply not_elem_of_singleton.
Qed.

Lemma uint32_small (i : Z) : (0 ≤ i < 2 ^ 32)%Z → uint32 i = Z.to_N i.
Proof. intros Hi. unfold uint32. by rewrite Z.mod_small. Qed.

(** The test of the priority loop: a map whose keys are 32-bit numbers
    passes it exactly when its keys are the numbers below its size. *)
Lemma priorities_contiguous (X : gset N) :
  (∀ x, x ∈ X → x < 2 ^ 32) →
  Forall (λ i, uint32 i ∈ X) (seqZ 0 (Z.of_nat (size X))) ↔
  (∀ p, p ∈ X ↔ p < N.of_nat (size X)).
Proof.
  intros Hbound.
  assert (size X ≤ N.to_nat (2 ^ 32))%nat as Hsize.
  { apply size_below. intros x Hx%Hbound. lia. }
  rewrite Forall_forall. split.
  - intros Hall.
    assert (∀ i, (i < size X)%nat → N.of_nat i ∈ X) as Hfull.
    { intros i Hi. specialize (Hall (Z.of_nat i)).
      rewrite uint32_small in Hall by lia.
      replace (N.of_nat i) with (Z.to_N (Z.of_nat i)) by lia.
      apply Hall, elem_of_seqZ. lia. }
    intros p. split.
    + by apply below_of_full.
    + intros Hp. replace p with (N.of_nat (N.to_nat p)) by lia.
      apply Hfull. lia.
  - intros Hiff i [Hi0 Hi]%elem_of_seqZ. rewrite uint32_small by lia.
    apply Hiff. lia.
Qed.

(** A set with a gap is not a set of all numbers below some bound. *)
Lemma hasGap_not_contiguous (X : gset N) n :
  hasGap X → ¬ (∀ p, p ∈ X ↔ p < n).
Proof.
  intros (p & q & Hpq & Hq & Hp) Hiff. apply Hp, Hiff.
  apply Hiff in Hq. lia.
Qed.

Section Properties.

Variable ToString : LocalityID → string.

Local Abbreviation body := (parseEDSRespProto_body ToString).
Local Abbreviation lidStr := (lidStrOf ToString).

(** The iteration, with the two branches of the nil test on the inner map
    merged: the test reads [seenAt], the store is [record]. *)
Lemma body_eq ret priorities e :
  body (ret, priorities) e =
  match pb.GetLocality e with
  | None => Exits (EndpointsUpdate_zero, Some (ErrNoLocalityID e))
  | Some _ =>
      if decide (weightOf e = 0) then Falls (ret, priorities)
      else if decide (lidStr e ∈ seenAt priorities (pb.GetPriority e)) then
        Exits (EndpointsUpdate_zero,
               Some (ErrDuplicateLocality (lidStr e) (pb.GetPriority e)))
      else
        match parseEndpoints (pb.GetLbEndpoints e) with
        | (_, Some err) => Exits (EndpointsUpdate_zero, Some err)
        | (endpoints, None) =>
            Falls ({| Drops := Drops ret;
                      Localities := Localities ret ++ [
                        {| ID := localityID e;
                           Endpoints := endpoints;
                           Weight := weightOf e;
                           Priority := pb.GetPriority e |} ];
                      Raw := Raw ret |},
                   record priorities (pb.GetPriority e) (lidStr e))
        end
  end.
Proof.
  unfold parseEDSRespProto_body, lidStrOf, localityID, record, seenAt, weightOf.
  destruct (pb.GetLocality e) as [l|]; [|done].
  case_decide; [done|].
  destruct (priorities !! pb.GetPriority e) as [seen|] eqn:Hp; simpl.
  - reflexivity.
  - by rewrite insert_insert_eq.
Qed.

(** What an iteration does, by the kind of entry. *)
Lemma body_cases ret priorities e :
  (lacksID e ∧
   body (ret, priorities) e =
     Exits (EndpointsUpdate_zero, Some (ErrNoLocalityID e))) ∨
  (¬ lacksID e ∧ weightOf e = 0 ∧
   body (ret, priorities) e = Falls (ret, priorities)) ∨
  (surviving e = true ∧ lidStr e ∈ seenAt priorities (pb.GetPriority e) ∧
   body (ret, priorities) e =
     Exits (EndpointsUpdate_zero,
            Some (ErrDuplicateLocality (lidStr e) (pb.GetPriority e)))) ∨
  (surviving e = true ∧ (lidStr e ∉ seenAt priorities (pb.GetPriority e)) ∧
   ∃ ep, ep ∈ pb.GetLbEndpoints e ∧ endpointWeight ep = 0 ∧
     body (ret, priorities) e =
       Exits (EndpointsUpdate_zero, Some (ErrZeroWeightEndpoint ep))) ∨
  (surviving e = true ∧ (lidStr e ∉ seenAt priorities (pb.GetPriority e)) ∧
   Forall (λ ep, endpointWeight ep ≠ 0) (pb.GetLbEndpoints e) ∧
   body (ret, priorities) e =
     Falls ({| Drops := Drops ret;
               Localities := Localities ret ++ [localityOf e];
               Raw := Raw ret |},
            record priorities (pb.GetPriority e) (lidStr e))).
Proof.
  rewrite body_eq. pose proof (surviving_true e) as Hs.
  unfold lacksID in *. destruct (pb.GetLocality e) as [l|] eqn:Hl; [|by left].
  right. case_decide as Hw; [left; by eauto|]. right.
  assert (surviving e = true) as Hsurv by (apply Hs; done).
  case_decide as Hseen; [left; by eauto|]. right.
  destruct (parseEndpoints_spec (pb.GetLbEndpoints e))
    as [[Hall ->]|(ep & Hin & Hz & ->)].
  - right. split_and!; done.
  - left. split_and!; [done..|]. by exists ep.
Qed.

(** The state the locality loop falls through with, and what its falling
    through says of the entries. *)
Lemma loop_falls ls : ∀ ret priorities ret' priorities',
  for_range body (ret, priorities) ls = Falls (ret', priorities') →
  Forall (λ e, ¬ lacksID e) ls ∧
  Forall (λ e, surviving e = true →
               Forall (λ ep, endpointWeight ep ≠ 0) (pb.GetLbEndpoints e)) ls ∧
  ret' = {| Drops := Drops ret;
            Localities := Localities ret ++
              (localityOf <$> filter (λ e, surviving e = true) ls);
            Raw := Raw ret |} ∧
  dom priorities' = dom priorities ∪ survivingPriorities ls ∧
  (∀ p s, s ∈ seenAt priorities' p ↔
          s ∈ seenAt priorities p ∨
          ∃ e, e ∈ ls ∧ surviving e = true ∧
               pb.GetPriority e = p ∧ lidStr e = s) ∧
  (∀ e, e ∈ ls → surviving e = true →
        lidStr e ∉ seenAt priorities (pb.GetPriority e)) ∧
  (∀ i j, ¬ duplicatePair ToString ls i j).
Proof.
  induction ls as [|e ls IH]; intros ret priorities ret' priorities';
    cbn [for_range].
  - intros [= <- <-]. split_and!; try done.
    + destruct ret; simpl. by rewrite app_nil_r.
    + unfold survivingPriorities. simpl. by rewrite (right_id_L ∅ (∪)).
    + intros p s. split; [by left|]. intros [?|(e & []%elem_of_nil & _)]. done.
    + intros e []%elem_of_nil.
    + intros i j (e1 & e2 & _ & H1 & _). by rewrite lookup_nil in H1.
  - destruct (body_cases ret priorities e)
      as [[_ ->]|[(Hid & Hw & ->)|[(_ & _ & ->)|[(_ & _ & ep & _ & _ & ->)|
          (Hs & Hnew & Heps & ->)]]]]; try done.
    + (* an entry of weight zero: the state is unchanged *)
      assert (surviving e ≠ true) as Hs
        by (rewrite surviving_true; intros [_ ?]; done).
      intros (Hids & Hzero & -> & Hdom & Hseen & Hfresh & Hnodup)%IH.
      split_and!.
      * by constructor.
      * constructor; [done | done].
      * by rewrite surviving_cons_false.
      * rewrite survivingPriorities_cons.
        by destruct (surviving e).
      * intros p s. rewrite Hseen. split; intros [?|(e' & Hin & Hs' & Hp')].
        -- by left.
        -- right. exists e'. split; [by right | done].
        -- by left.
        -- right. exists e'. apply elem_of_cons in Hin as [->|Hin]; [done|].
           done.
      * intros e' [->|Hin]%elem_of_cons Hs'; [done | by apply Hfresh].
      * intros i j [(i' & j' & _ & _ & Hd)|(j' & e2 & _ & _ & _ & Hs' & _)]
          %duplicatePair_cons; [by eapply Hnodup | done].
    + (* a surviving entry: one locality more, one identity recorded *)
      intros (Hids & Hzero & -> & Hdom & Hseen & Hfresh & Hnodup)%IH.
      simpl in *. split_and!.
      * constructor; [|done]. by apply surviving_true in Hs as [? _].
      * constructor; done.
      * rewrite surviving_cons_true by done.
        rewrite fmap_cons. by rewrite <-app_assoc.
      * rewrite survivingPriorities_cons, Hs, Hdom, dom_record. set_solver.
      * intros p s. rewrite Hseen, seenAt_record. split.
        -- intros [Hin|(e' & Hin & Hs' & Hp')].
           ++ case_decide as Hp; [subst p|by left].
              apply elem_of_union in Hin as [->%elem_of_singleton|Hin]; [|by left].
              right. exists e. split; [by left | done].
           ++ right. exists e'. split; [by right | done].
        -- intros [Hin|(e' & [->|Hin]%elem_of_cons & Hs' & Hp' & Hid')].
           ++ left. case_decide as Hp; [subst p|done]. set_solver.
           ++ left. subst p s. rewrite decide_True by done. set_solver.
           ++ right. by exists e'.
      * intros e' [->|Hin]%elem_of_cons Hs'; [done|].
        specialize (Hfresh e' Hin Hs'). rewrite seenAt_record in Hfresh.
        case_decide as Hp; [rewrite <-Hp|done]. set_solver.
      * intros i j [(i' & j' & _ & _ & Hd)|(j' & e2 & _ & _ & Hj & _ & Hs2 & Hid & Hp)]
          %duplicatePair_cons; [by eapply Hnodup|].
        apply list_elem_of_lookup_2 in Hj.
        specialize (Hfresh e2 Hj Hs2). rewrite seenAt_record in Hfresh.
        rewrite decide_True in Hfresh by done. rewrite Hid in Hfresh. set_solver.
Qed.

(** The locality loop started from the empty map leaves only at an entry
    without identity, at the second entry of a duplicate pair, or at a
    surviving entry with an endpoint of weight zero; the entries before
    that one are passed without error. *)
Lemma loop_exits ls ret r :
  for_range body (ret, ∅) ls = Exits r →
  ∃ pre e suf err,
    ls = pre ++ e :: suf ∧ r = (EndpointsUpdate_zero, Some err) ∧
    (∃ st, for_range body (ret, ∅) pre = Falls st) ∧
    ((lacksID e ∧ err = ErrNoLocalityID e) ∨
     (surviving e = true ∧ (∃ i, duplicatePair ToString ls i (length pre)) ∧
      err = ErrDuplicateLocality (lidStr e) (pb.GetPriority e)) ∨
     (surviving e = true ∧
      ∃ ep, ep ∈ pb.GetLbEndpoints e ∧ endpointWeight ep = 0 ∧
            err = ErrZeroWeightEndpoint ep)).
Proof.
  intros (pre & e & suf & [ret1 priorities1] & -> & Hpre & He)%for_range_exits.
  exists pre, e, suf.
  destruct (body_cases ret1 priorities1 e)
    as [[Hid Hb]|[(_ & _ & Hb)|[(Hs & Hseen & Hb)|[(Hs & _ & ep & Hin & Hz & Hb)|
        (_ & _ & _ & Hb)]]]]; rewrite Hb in He; try done;
    injection He as <-; eexists; (split; [done|]); (split; [done|]);
    (split; [by eexists|]).
  - by left.
  - right; left. split_and!; [done| |done].
    apply loop_falls in Hpre as (_ & _ & _ & _ & Hseen' & _).
    apply Hseen' in Hseen as [Hemp|(e0 & Hin & Hs0 & Hp0 & Hid0)].
    { by rewrite seenAt_empty in Hemp. }
    apply list_elem_of_lookup_1 in Hin as [i Hi]. exists i, e0, e.
    split_and!; try done.
    + by eapply lookup_lt_Some.
    + by apply lookup_app_l_Some.
    + by rewrite list_lookup_middle.
  - right; right. split; [done|]. by exists ep.
Qed.

(** Conversely, the loop falls through a list in which every entry has an
    identity, no surviving entry has an endpoint of weight zero and no two
    surviving entries make a duplicate pair. *)
Lemma loop_falls_if ls ret :
  Forall (λ e, ¬ lacksID e) ls →
  Forall (λ e, surviving e = true → ¬ hasZeroWeightEndpoint e) ls →
  (∀ i j, ¬ duplicatePair ToString ls i j) →
  ∃ st, for_range body (ret, ∅) ls = Falls st.
Proof.
  intros Hids Hzero Hnodup.
  destruct (for_range body (ret, ∅) ls) as [st|r] eqn:Hloop; [by exists st|].
  apply loop_exits in Hloop
    as (pre & e & suf & err & -> & _ & _ &
        [[Hid _]|[(_ & [i Hd] & _)|(Hs & ep & Hin & Hz & _)]]); exfalso.
  - rewrite Forall_app, Forall_cons in Hids. by destruct Hids as (_ & ? & _).
  - by eapply Hnodup.
  - rewrite Forall_app, Forall_cons in Hzero. destruct Hzero as (_ & Hz' & _).
    apply (Hz' Hs). by exists ep.
Qed.

(** ** The priority loop *)

Lemma priority_loop priorities (idx : list Z) :
  match for_range (priority_body priorities) () idx with
  | Falls _ => Forall (λ i, uint32 i ∈ dom priorities) idx
  | Exits r =>
      ∃ i, i ∈ idx ∧ (uint32 i ∉ dom priorities) ∧
           r = (EndpointsUpdate_zero, Some (ErrMissingPriority i priorities))
  end.
Proof.
  induction idx as [|i idx IH]; cbn [for_range]; [done|].
  unfold priority_body at 1.
  destruct (priorities !! uint32 i) as [seen|] eqn:Hi.
  - destruct (for_range _ _ idx) as [[]|r].
    + constructor; [|done]. apply elem_of_dom. by eexists.
    + destruct IH as (i' & Hin & Hrest). exists i'. split; [by right | done].
  - exists i. split_and!; [by left | by apply not_elem_of_dom | done].
Qed.

(** ** parseEDSRespProto *)

Lemma drops_loop (l : list (option pb.DropOverload)) : ∀ ret,
  foldl (λ ret dropPolicy,
           {| Drops := Drops ret ++ [parseDropPolicy dropPolicy];
              Localities := Localities ret;
              Raw := Raw ret |}) ret l =
  {| Drops := Drops ret ++ (parseDropPolicy <$> l);
     Localities := Localities ret;
     Raw := Raw ret |}.
Proof.
  induction l as [|d l IH]; intros ret; simpl.
  - destruct ret; simpl. by rewrite app_nil_r.
  - rewrite IH. simpl. by rewrite <-app_assoc.
Qed.

(** On a message (a non-nil pointer) the function returns: the drop loop,
    the locality loop, the priority loop. *)
Lemma parse_unfold m :
  parseEDSRespProto ToString (Some m) =
  Returns
    match for_range body (afterDrops m, ∅) (pb.Endpoints m) with
    | Exits r => r
    | Falls (ret, priorities) =>
        match for_range (priority_body priorities) ()
                (seqZ 0 (Z.of_nat (size priorities))) with
        | Exits r => r
        | Falls _ => (ret, None)
        end
    end.
Proof.
  unfold parseEDSRespProto. rewrite drops_loop. simpl.
  change {| Drops := parseDropPolicy <$> pb.GetDropOverloads (pb.CPolicy m);
            Localities := []; Raw := None |} with (afterDrops m).
  destruct (for_range body _ _) as [[ret priorities]|r]; [|done].
  by destruct (for_range (priority_body priorities) _ _).
Qed.

Lemma parse_prefix_exit m pre suf r :
  pb.Endpoints m = pre ++ suf →
  for_range body (afterDrops m, ∅) pre = Exits r →
  parseEDSRespProto ToString (Some m) = Returns r.
Proof.
  intros Hm Hpre. by rewrite parse_unfold, Hm, for_range_app, Hpre.
Qed.

Lemma parse_entry_exit m pre e suf st r :
  pb.Endpoints m = pre ++ e :: suf →
  for_range body (afterDrops m, ∅) pre = Falls st →
  body st e = Exits r →
  parseEDSRespProto ToString (Some m) = Returns r.
Proof.
  intros Hm Hpre He. rewrite parse_unfold, Hm, for_range_app, Hpre.
  cbn [for_range]. by rewrite He.
Qed.

(** The three ways the function returns: with the update of the surviving
    entries; with the missing-priority error, after a locality loop
    without error; with the error of the first entry the locality loop
    rejects. *)
Lemma parse_cases m :
  (parseEDSRespProto ToString (Some m) = Returns (successUpdate m, None) ∧
   allIdentified (pb.Endpoints m) ∧ noZeroWeightEndpoint (pb.Endpoints m) ∧
   noDuplicate ToString (pb.Endpoints m) ∧
   Forall (λ i, uint32 i ∈ survivingPriorities (pb.Endpoints m))
          (seqZ 0 (Z.of_nat (size (survivingPriorities (pb.Endpoints m)))))) ∨
  (∃ i priorities,
     parseEDSRespProto ToString (Some m) =
       failsWith (ErrMissingPriority i priorities) ∧
     allIdentified (pb.Endpoints m) ∧ noZeroWeightEndpoint (pb.Endpoints m) ∧
     noDuplicate ToString (pb.Endpoints m) ∧
     dom priorities = survivingPriorities (pb.Endpoints m) ∧
     (0 ≤ i < Z.of_nat (size (survivingPriorities (pb.Endpoints m))))%Z ∧
     uint32 i ∉ survivingPriorities (pb.Endpoints m)) ∨
  (∃ pre e suf err,
     pb.Endpoints m = pre ++ e :: suf ∧
     parseEDSRespProto ToString (Some m) = failsWith err ∧
     (∃ st, for_range body (afterDrops m, ∅) pre = Falls st) ∧
     ((lacksID e ∧ err = ErrNoLocalityID e) ∨
      (surviving e = true ∧
       (∃ i, duplicatePair ToString (pb.Endpoints m) i (length pre)) ∧
       err = ErrDuplicateLocality (lidStr e) (pb.GetPriority e)) ∨
      (surviving e = true ∧
       ∃ ep, ep ∈ pb.GetLbEndpoints e ∧ endpointWeight ep = 0 ∧
             err = ErrZeroWeightEndpoint ep))).
Proof.
  rewrite parse_unfold.
  destruct (for_range body _ (pb.Endpoints m)) as [[ret priorities]|r] eqn:Hloop.
  - apply loop_falls in Hloop as (Hids & Hzero & -> & Hdom & _ & _ & Hnodup).
    rewrite dom_empty_L, (left_id_L ∅ (∪)) in Hdom.
    assert (noZeroWeightEndpoint (pb.Endpoints m)) as Hzero'.
    { eapply Forall_impl; [exact Hzero|]. intros e He Hs (ep & Hin & Hz).
      specialize (He Hs). rewrite Forall_forall in He. by apply (He ep). }
    assert (size priorities = size (survivingPriorities (pb.Endpoints m)))
      as Hsize by (by rewrite <-Hdom, size_dom).
    pose proof (priority_loop priorities
                  (seqZ 0 (Z.of_nat (size priorities)))) as Hprio.
    rewrite Hdom, Hsize in Hprio. rewrite Hsize.
    destruct (for_range (priority_body priorities) _ _) as [[]|r].
    + by left.
    + right; left. destruct Hprio as (i & Hin%elem_of_seqZ & Hmiss & ->).
      exists i, priorities. split_and!; try done; lia.
  - right; right.
    apply loop_exits in Hloop as (pre & e & suf & err & Hm & -> & Hpre & Hkind).
    exists pre, e, suf, err. done.
Qed.

End Properties.

(** ** The executable conditions are sound *)

Lemma allIdentifiedb_sound ls : allIdentifiedb ls = true → allIdentified ls.
Proof.
  unfold allIdentifiedb, allIdentified, lacksID. rewrite forallb_forall, Forall_forall.
  intros H e Hin%list_elem_of_In Hnone. specialize (H e Hin).
  by rewrite Hnone in H.
Qed.

Lemma noZeroWeightEndpointb_sound ls :
  noZeroWeightEndpointb ls = true → noZeroWeightEndpoint ls.
Proof.
  unfold noZeroWeightEndpointb, noZeroWeightEndpoint.
  rewrite forallb_forall, Forall_forall.
  intros H e Hin%list_elem_of_In _ (ep & Hep%list_elem_of_In & Hz).
  specialize (H e Hin). rewrite forallb_forall in H. specialize (H ep Hep).
  rewrite Hz in H. done.
Qed.

Lemma noDuplicateb_sound ToString ls :
  noDuplicateb ToString ls = true → noDuplicate ToString ls.
Proof.
  unfold noDuplicateb, noDuplicate. intros Hnodup%bool_decide_eq_true.
  induction ls as [|e ls IH]; intros i j Hd.
  - destruct Hd as (e1 & e2 & _ & H1 & _). by rewrite lookup_nil in H1.
  - apply duplicatePair_cons in Hd
      as [(i' & j' & _ & _ & Hd)|(j' & e2 & _ & _ & Hj & Hs & Hs2 & Hid & Hp)].
    + apply (IH) in Hd; [done|]. destruct (surviving e) eqn:Hs.
      * rewrite surviving_cons_true, fmap_cons in Hnodup by done.
        by apply NoDup_cons in Hnodup as [_ ?].
      * rewrite surviving_cons_false in Hnodup by congruence. done.
    + rewrite surviving_cons_true, fmap_cons in Hnodup by done.
      apply NoDup_cons in Hnodup as [Hnotin _]. apply Hnotin.
      apply list_elem_of_fmap. exists e2. split.
      * unfold localityKey. by rewrite Hid, Hp.
      * apply list_elem_of_filter. split; [done|]. by eapply list_elem_of_lookup_2.
Qed.

(** ** The resource parser as a whole *)

(** A parse returns: the update of the surviving entries, or an error. *)
Lemma parse_outcome ToString m :
  parseEDSRespProto ToString (Some m) = Returns (successUpdate m, None) ∨
  ∃ err, parseEDSRespProto ToString (Some m) = failsWith err.
Proof.
  destruct (parse_cases ToString m)
    as [(Hp & _)|[(i & ps & Hp & _)|(pre & e & suf & err & _ & Hp & _)]];
    [by left | right; by eexists..].
Qed.

Section Envelope.

Variable ToString : LocalityID → string.
Variable unwrapResource : option pb.Any → option pb.Any * option string.
Variable IsEndpointsResource : string → bool.
Variable Unmarshal : list Byte.byte → pb.ClusterLoadAssignment * option string.

Local Abbreviation unmarshal :=
  (unmarshalEndpointsResource ToString unwrapResource IsEndpointsResource Unmarshal).

(** The five ways [unmarshalEndpointsResource] returns. *)
Lemma unmarshal_cases r :
  (∃ r' e, unwrapResource r = (r', Some e) ∧
     unmarshal r = Returns ("", EndpointsUpdate_zero, Some (ErrUnwrap e))) ∨
  (∃ r', unwrapResource r = (r', None) ∧
     IsEndpointsResource (pb.GetTypeUrl r') = false ∧
     unmarshal r =
       Returns ("", EndpointsUpdate_zero, Some (ErrResourceType (pb.GetTypeUrl r')))) ∨
  (∃ r' cla e, unwrapResource r = (r', None) ∧
     IsEndpointsResource (pb.GetTypeUrl r') = true ∧
     Unmarshal (pb.GetValue' r') = (cla, Some e) ∧
     unmarshal r = Returns ("", EndpointsUpdate_zero, Some (ErrUnmarshal e))) ∨
  (∃ r' cla e, unwrapResource r = (r', None) ∧
     IsEndpointsResource (pb.GetTypeUrl r') = true ∧
     Unmarshal (pb.GetValue' r') = (cla, None) ∧
     parseEDSRespProto ToString (Some cla) = failsWith e ∧
     unmarshal r = Returns (pb.ClusterName cla, EndpointsUpdate_zero, Some e)) ∨
  (∃ r' cla, unwrapResource r = (r', None) ∧
     IsEndpointsResource (pb.GetTypeUrl r') = true ∧
     Unmarshal (pb.GetValue' r') = (cla, None) ∧
     parseEDSRespProto ToString (Some cla) = Returns (successUpdate cla, None) ∧
     unmarshal r =
       Returns (pb.ClusterName cla,
                {| Drops := Drops (successUpdate cla);
                   Localities := Localities (successUpdate cla);
                   Raw := r' |},
                None)).
Proof.
  unfold unmarshalEndpointsResource.
  destruct (unwrapResource r) as [r' [e|]] eqn:Hunwrap.
  { left. by exists r', e. }
  right. destruct (IsEndpointsResource (pb.GetTypeUrl r')) eqn:Htype; cbn [negb].
  2: { left. by exists r'. }
  right. destruct (Unmarshal (pb.GetValue' r')) as [cla [e|]] eqn:Hcla.
  { left. by exists r', cla, e. }
  right. destruct (parse_outcome ToString cla) as [Hp|[e Hp]]; rewrite Hp.
  - right. by exists r', cla.
  - left. by exists r', cla, e.
Qed.

Lemma unmarshal_returns r : ∃ x, unmarshal r = Returns x.
Proof.
  destruct (unmarshal_cases r)
    as [(? & ? & _ & ->)|[(? & _ & _ & ->)|[(? & ? & ? & _ & _ & _ & ->)|
       [(? & ? & ? & _ & _ & _ & _ & ->)|(? & ? & _ & _ & _ & _ & ->)]]]];
    by eexists.
Qed.

End Envelope.

(** The batch records, under every name that the parser returns for a
    resource of the batch, the outcome of a resource of that name. *)
Lemma processAllResources_spec
    (unmarshal : option pb.Any → Go (string * EndpointsUpdate * option Error))
    (resources : list (option pb.Any))
    (update0 : gmap string EndpointsUpdateErrTuple) :
  (∀ r, ∃ x, unmarshal r = Returns x) →
  ∃ update,
    processAllResources unmarshal resources update0 = Returns update ∧
    ∀ r name u err,
      r ∈ resources → unmarshal r = Returns (name, u, err) →
      ∃ r2 u2 err2,
        r2 ∈ resources ∧ unmarshal r2 = Returns (name, u2, err2) ∧
        update !! name = Some {| Update := u2; Err := err2 |}.
Proof.
  intros Htotal. unfold processAllResources.
  induction resources as [|x l IH] using rev_ind.
  - exists update0. split; [done|]. by intros r name u err ?%elem_of_nil.
  - destruct IH as (update & Hl & Hkeys). rewrite foldl_app. cbn [foldl].
    rewrite Hl. destruct (Htotal x) as [[[n ux] ex] Hx]. cbn. rewrite Hx. cbn.
    eexists. split; [done|].
    intros r name u err Hin Hr. destruct (decide (name = n)) as [->|Hne].
    + exists x, ux, ex. split_and!; [set_solver | done | by rewrite lookup_insert_eq].
    + apply elem_of_app in Hin as [Hin|Hin%list_elem_of_singleton].
      * destruct (Hkeys r name u err Hin Hr) as (r2 & u2 & err2 & ? & ? & ?).
        exists r2, u2, err2. split_and!; [set_solver | done |].
        by rewrite lookup_insert_ne.
      * subst r. rewrite Hx in Hr. by injection Hr as -> _ _.
Qed.

(** ** Auxiliary facts for the claims *)

(** The parse of a message with an entry that the locality loop cannot pass
    fails. *)
Lemma parse_fails_unless ToString m :
  ¬ (allIdentified (pb.Endpoints m) ∧ noZeroWeightEndpoint (pb.Endpoints m) ∧
     noDuplicate ToString (pb.Endpoints m)) →
  ∃ err, parseEDSRespProto ToString (Some m) = failsWith err.
Proof.
  intros Hnot.
  destruct (parse_cases ToString m)
    as [(_ & ? & ? & ? & _)|[(i & ps & _ & ? & ? & ? & _)|
        (pre & e & suf & err & _ & Hparse & _)]];
    [by destruct Hnot..|].
  by exists err.
Qed.

Lemma survivingPriorities_bound ls :
  Forall (λ e, pb.GetPriority e < 2 ^ 32) ls →
  ∀ x, x ∈ survivingPriorities ls → x < 2 ^ 32.
Proof.
  rewrite Forall_forall. intros Hall x (e & Hin & _ & <-)%elem_of_survivingPriorities.
  by apply Hall.
Qed.

Lemma successUpdate_priorities m p :
  p ∈ Priority <$> Localities (successUpdate m) ↔
  p ∈ survivingPriorities (pb.Endpoints m).
Proof.
  unfold successUpdate, survivingPriorities. cbn [Localities].
  by rewrite <-list_fmap_compose, elem_of_list_to_set.
Qed.

(** * The claims *)

(** ** Contiguous priorities *)

(** C1, as stated, fails twice.  A message without localities is parsed
    successfully, and the set of priorities of its update is empty, which is
    {0, ..., k} for no k.  And the error of the locality loop comes first:
    in the second message the surviving entries have the priorities 0 and 2,
    and the parser returns the duplicate-locality error. *)
Lemma C1_counterexample :
  (parseEDSRespProto Sample.ToString (Some (Sample.message [])) =
     Returns (EndpointsUpdate_zero, None) ∧
   ¬ ∃ k : N, ∀ p, p ∈ Priority <$> Localities EndpointsUpdate_zero ↔ p ≤ k) ∧
  (hasGap (survivingPriorities (pb.Endpoints Sample.duplicateThenGap)) ∧
   parseEDSRespProto Sample.ToString (Some Sample.duplicateThenGap) =
     Returns (EndpointsUpdate_zero, Some (ErrDuplicateLocality "A//" 0))).
Proof.
  split; split; try reflexivity.
  - intros [k Hk]. specialize (Hk 0). cbn in Hk.
    assert (0 ∈ @nil N) as []%elem_of_nil. apply Hk. lia.
  - exists 1, 2. split_and!; [lia | |]; vm_compute; [done|].
    intros H. discriminate H.
Qed.

(** C1, amended.  On every message whose priorities are 32-bit numbers: when
    the parser succeeds, the set of priorities of the localities of the
    update is exactly the set of the numbers below some n ≥ 0 (the empty
    set when no locality survives); and when the priorities of the surviving
    entries have a gap, the parser fails, with the missing-priority error
    if every entry carries an identity, no surviving entry has an endpoint
    of weight zero and no two surviving entries share an identity at a
    priority. *)
Theorem C1_priorities_contiguous (ToString : LocalityID → string)
    (m : pb.ClusterLoadAssignment) :
  Forall (λ e, pb.GetPriority e < 2 ^ 32) (pb.Endpoints m) →
  (∀ u, parseEDSRespProto ToString (Some m) = Returns (u, None) →
        ∃ n : N, ∀ p, p ∈ Priority <$> Localities u ↔ p < n) ∧
  (hasGap (survivingPriorities (pb.Endpoints m)) →
   (∃ err, parseEDSRespProto ToString (Some m) = failsWith err) ∧
   (allIdentified (pb.Endpoints m) → noZeroWeightEndpoint (pb.Endpoints m) →
    noDuplicate ToString (pb.Endpoints m) →
    ∃ i priorities,
      parseEDSRespProto ToString (Some m) =
        failsWith (ErrMissingPriority i priorities) ∧
      (0 ≤ i)%Z ∧ Z.to_N i ∉ survivingPriorities (pb.Endpoints m))).
Proof.
  intros Hbound32. pose proof (survivingPriorities_bound _ Hbound32) as Hbound.
  pose proof (priorities_contiguous _ Hbound) as Hcontiguous.
  destruct (parse_cases ToString m)
    as [(Hp & _ & _ & _ & Hall)|[(i & ps & Hp & _ & _ & _ & _ & Hi & Hmiss)|
        (pre & e & suf & err & Hm & Hp & _ & Hkind)]].
  - pose proof (proj1 Hcontiguous Hall) as Hiff. split.
    + intros u Hparse. rewrite Hp in Hparse. injection Hparse as <-.
      eexists. intros p. rewrite successUpdate_priorities. apply Hiff.
    + intros Hgap. by destruct (hasGap_not_contiguous _ _ Hgap Hiff).
  - split; [intros u Hparse; by rewrite Hp in Hparse|].
    intros _. split; [by eexists|]. intros _ _ _. exists i, ps.
    assert (size (survivingPriorities (pb.Endpoints m)) ≤ N.to_nat (2 ^ 32))%nat.
    { apply size_below. intros x Hx%Hbound. lia. }
    rewrite uint32_small in Hmiss by lia. split_and!; [done | lia | done].
  - split; [intros u Hparse; by rewrite Hp in Hparse|].
    intros _. split; [by eexists|]. intros Hids Hzero Hnodup. exfalso.
    destruct Hkind as [[Hid _]|[(_ & [i Hd] & _)|(Hs & ep & Hin & Hw & _)]].
    + unfold allIdentified in Hids. rewrite Hm, Forall_app, Forall_cons in Hids.
      by destruct Hids as (_ & ? & _).
    + by apply Hnodup in Hd.
    + unfold noZeroWeightEndpoint in Hzero.
      rewrite Hm, Forall_app, Forall_cons in Hzero.
      destruct Hzero as (_ & Hz' & _). apply (Hz' Hs). by exists ep.
Qed.

Lemma C1_witness :
  Forall (λ e, pb.GetPriority e < 2 ^ 32) (pb.Endpoints Sample.gapped) ∧
  (hasGap (survivingPriorities (pb.Endpoints Sample.gapped)) ∧
   allIdentified (pb.Endpoints Sample.gapped) ∧
   noZeroWeightEndpoint (pb.Endpoints Sample.gapped) ∧
   noDuplicate Sample.ToString (pb.Endpoints Sample.gapped)) ∧
  (∃ n : N, ∀ p,
     p ∈ Priority <$> Localities (successUpdate Sample.good) ↔ p < n) ∧
  ∃ i priorities,
    parseEDSRespProto Sample.ToString (Some Sample.gapped) =
      failsWith (ErrMissingPriority i priorities) ∧
    (0 ≤ i)%Z ∧ Z.to_N i ∉ survivingPriorities (pb.Endpoints Sample.gapped).
Proof.
  assert (Forall (λ e, pb.GetPriority e < 2 ^ 32) (pb.Endpoints Sample.gapped))
    as Hbound by (repeat constructor).
  assert (Forall (λ e, pb.GetPriority e < 2 ^ 32) (pb.Endpoints Sample.good))
    as Hbound' by (repeat constructor).
  assert (hasGap (survivingPriorities (pb.Endpoints Sample.gapped))) as Hgap.
  { exists 1, 2. split_and!; [lia | |]; vm_compute; [done|].
    intros H. discriminate H. }
  assert (allIdentified (pb.Endpoints Sample.gapped))
    as Hids by (apply allIdentifiedb_sound; reflexivity).
  assert (noZeroWeightEndpoint (pb.Endpoints Sample.gapped))
    as Hzero by (apply noZeroWeightEndpointb_sound; reflexivity).
  assert (noDuplicate Sample.ToString (pb.Endpoints Sample.gapped))
    as Hnodup by (apply noDuplicateb_sound; vm_compute; reflexivity).
  split_and!; try done.
  - exact (proj1 (C1_priorities_contiguous Sample.ToString Sample.good Hbound')
             (successUpdate Sample.good) eq_refl).
  - exact (proj2 (proj2 (C1_priorities_contiguous Sample.ToString Sample.gapped Hbound)
                    Hgap) Hids Hzero Hnodup).
Defined.

(** ** Duplicate localities *)

(** C2, as stated, fails in the direction from the pair to the error: two
    surviving entries share identity and priority, but the first of them has
    an endpoint of weight zero, and that error is returned. *)
Lemma C2_counterexample :
  duplicatePair Sample.ToString (pb.Endpoints Sample.zeroThenDuplicate) 0 1 ∧
  parseEDSRespProto Sample.ToString (Some Sample.zeroThenDuplicate) =
  Returns (EndpointsUpdate_zero, Some (ErrZeroWeightEndpoint (Sample.ep 0))).
Proof.
  split; [|reflexivity].
  eexists _, _. split_and!; [|reflexivity..]. lia.
Qed.

(** C2, amended.  The parser returns a duplicate-locality error only if two
    entries of weight other than zero, with the same identity string, share a
    priority (so the same identity at two priorities is no error).  When
    there are two such entries the parse fails; it fails with a
    duplicate-locality error when every entry before the second of the two
    carries an identity and none of the surviving ones has an endpoint of
    weight zero. *)
Theorem C2_duplicate_locality (ToString : LocalityID → string)
    (m : pb.ClusterLoadAssignment) :
  (∀ u s p,
     parseEDSRespProto ToString (Some m) =
       Returns (u, Some (ErrDuplicateLocality s p)) →
     ∃ i j e1 e2,
       (i < j)%nat ∧ pb.Endpoints m !! i = Some e1 ∧ pb.Endpoints m !! j = Some e2 ∧
       weightOf e1 ≠ 0 ∧ weightOf e2 ≠ 0 ∧
       lidStrOf ToString e1 = s ∧ lidStrOf ToString e2 = s ∧
       pb.GetPriority e1 = p ∧ pb.GetPriority e2 = p) ∧
  (∀ i j,
     duplicatePair ToString (pb.Endpoints m) i j →
     (∃ err, parseEDSRespProto ToString (Some m) = failsWith err) ∧
     (allIdentified (take j (pb.Endpoints m)) →
      noZeroWeightEndpoint (take j (pb.Endpoints m)) →
      ∃ s p, parseEDSRespProto ToString (Some m) =
             failsWith (ErrDuplicateLocality s p))).
Proof.
  split.
  - intros u s p Hparse.
    destruct (parse_cases ToString m)
      as [(Hp & _)|[(i & ps & Hp & _)|(pre & e & suf & err & Hm & Hp & _ & Hkind)]];
      rewrite Hp in Hparse; try done.
    injection Hparse as <- ->.
    destruct Hkind as [[_ ?]|[(_ & [i Hd] & He)|(_ & ep & _ & _ & ?)]]; try done.
    injection He as -> ->.
    destruct Hd as (e1 & e2 & Hlt & H1 & H2 & [_ ?]%surviving_true &
                    [_ ?]%surviving_true & Hid & Hprio).
    rewrite Hm, list_lookup_middle in H2 by done. injection H2 as <-.
    exists i, (length pre), e1, e. rewrite Hm at 2.
    rewrite list_lookup_middle by done. split_and!; done.
  - intros i j Hd. split.
    { apply parse_fails_unless. intros (_ & _ & Hnodup). by apply Hnodup in Hd. }
    intros Hids Hzero.
    destruct Hd as (e1 & e2 & Hlt & H1 & H2 & Hs1 & Hs2 & Hid & Hprio).
    pose proof (take_drop_middle _ _ _ H2) as Hm. symmetry in Hm.
    assert (e1 ∈ take j (pb.Endpoints m)) as Hin.
    { apply list_elem_of_lookup. exists i. by rewrite lookup_take_lt. }
    destruct (for_range (parseEDSRespProto_body ToString) (afterDrops m, ∅)
                (take j (pb.Endpoints m))) as [[ret priorities]|r] eqn:Hpre.
    + exists (lidStrOf ToString e2), (pb.GetPriority e2).
      eapply parse_entry_exit; [done..|].
      apply loop_falls in Hpre as (_ & _ & _ & _ & Hseen & _).
      assert (lidStrOf ToString e2 ∈ seenAt priorities (pb.GetPriority e2)) as Hseen2.
      { apply Hseen. right. by exists e1. }
      by destruct (body_cases ToString ret priorities e2)
        as [[? _]|[(_ & ? & _)|[(_ & _ & ->)|[(_ & ? & _)|(_ & ? & _)]]]];
        try done; apply surviving_true in Hs2 as [? ?].
    + pose proof Hpre as Hr.
      apply loop_exits in Hr
        as (pre0 & e0 & suf0 & err & Hpre0 & -> & _ &
            [[Hid0 _]|[(_ & _ & ->)|(Hs & ep & Hep & Hz & _)]]).
      * unfold allIdentified in Hids. rewrite Hpre0, Forall_app, Forall_cons in Hids.
        by destruct Hids as (_ & ? & _).
      * eexists _, _. by eapply parse_prefix_exit.
      * unfold noZeroWeightEndpoint in Hzero.
        rewrite Hpre0, Forall_app, Forall_cons in Hzero.
        destruct Hzero as (_ & Hz' & _). destruct (Hz' Hs). by exists ep.
Qed.

Lemma C2_witness :
  duplicatePair Sample.ToString (pb.Endpoints Sample.duplicated) 0 1 ∧
  allIdentified (take 1 (pb.Endpoints Sample.duplicated)) ∧
  noZeroWeightEndpoint (take 1 (pb.Endpoints Sample.duplicated)) ∧
  ∃ s p, parseEDSRespProto Sample.ToString (Some Sample.duplicated) =
         failsWith (ErrDuplicateLocality s p).
Proof.
  assert (duplicatePair Sample.ToString (pb.Endpoints Sample.duplicated) 0 1)
    as Hd by (eexists _, _; split_and!; [lia | reflexivity..]).
  assert (allIdentified (take 1 (pb.Endpoints Sample.duplicated)))
    as Hids by (apply allIdentifiedb_sound; reflexivity).
  assert (noZeroWeightEndpoint (take 1 (pb.Endpoints Sample.duplicated)))
    as Hzero by (apply noZeroWeightEndpointb_sound; reflexivity).
  split_and!; [done..|].
  exact (proj2 (proj2 (C2_duplicate_locality Sample.ToString Sample.duplicated)
                  0%nat 1%nat Hd) Hids Hzero).
Defined.

(** ** Localities of weight zero *)

(** C3, as stated, fails: an entry of weight zero that carries no identity is
    not skipped, it is rejected with the missing-identity error (the identity
    is tested before the weight). *)
Lemma C3_counterexample :
  weightOf (Sample.anonymous 0 0 [Sample.ep 1]) = 0 ∧
  parseEDSRespProto Sample.ToString
    (Some (Sample.message [Sample.anonymous 0 0 [Sample.ep 1]])) =
  Returns (EndpointsUpdate_zero,
           Some (ErrNoLocalityID (Sample.anonymous 0 0 [Sample.ep 1]))).
Proof. split; reflexivity. Qed.

(** C3, amended.  A locality entry of weight zero that carries an identity is
    skipped entirely.  The iteration on it falls through with the state it
    was entered with: no error, no locality appended, no identity recorded,
    no priority added to the map.  And the message parses to what it parses
    to without the entry. *)
Theorem C3_zero_weight_locality_skipped (ToString : LocalityID → string)
    (name : string) (policy : option pb.Policy)
    (pre suf : list (option pb.LocalityLbEndpoints))
    (e : option pb.LocalityLbEndpoints) :
  ¬ lacksID e → weightOf e = 0 →
  (∀ st, parseEDSRespProto_body ToString st e = Falls st) ∧
  parseEDSRespProto ToString
    (Some {| pb.ClusterName := name; pb.Endpoints := pre ++ e :: suf;
             pb.CPolicy := policy |}) =
  parseEDSRespProto ToString
    (Some {| pb.ClusterName := name; pb.Endpoints := pre ++ suf;
             pb.CPolicy := policy |}).
Proof.
  intros Hid Hw.
  assert (∀ st, parseEDSRespProto_body ToString st e = Falls st) as Hskip.
  { intros [ret priorities].
    destruct (body_cases ToString ret priorities e)
      as [[? _]|[(_ & _ & ->)|[(Hs & _)|[(Hs & _)|(Hs & _)]]]];
      try done; apply surviving_true in Hs as [_ ?]; done. }
  split; [done|].
  rewrite !parse_unfold. cbn [pb.Endpoints].
  rewrite !for_range_app. cbn [for_range].
  change (afterDrops {| pb.ClusterName := name; pb.Endpoints := pre ++ e :: suf;
                        pb.CPolicy := policy |})
    with (afterDrops {| pb.ClusterName := name; pb.Endpoints := pre ++ suf;
                        pb.CPolicy := policy |}).
  destruct (for_range _ _ pre) as [st|r]; [|done]. by rewrite Hskip.
Qed.

Lemma C3_witness :
  ¬ lacksID (Sample.locality (Sample.region "B") 7 0 [Sample.ep 0]) ∧
  weightOf (Sample.locality (Sample.region "B") 7 0 [Sample.ep 0]) = 0 ∧
  parseEDSRespProto Sample.ToString
    (Some (Sample.message
       ([Sample.locality (Sample.region "A") 0 1 [Sample.ep 1]] ++
        Sample.locality (Sample.region "B") 7 0 [Sample.ep 0] :: []))) =
  parseEDSRespProto Sample.ToString
    (Some (Sample.message
       ([Sample.locality (Sample.region "A") 0 1 [Sample.ep 1]] ++ []))).
Proof.
  assert (¬ lacksID (Sample.locality (Sample.region "B") 7 0 [Sample.ep 0]))
    as Hid by discriminate.
  split; [exact Hid|]. split; [reflexivity|].
  apply (C3_zero_weight_locality_skipped Sample.ToString "cluster" None
           [Sample.locality (Sample.region "A") 0 1 [Sample.ep 1]] []
           (Sample.locality (Sample.region "B") 7 0 [Sample.ep 0]) Hid).
  reflexivity.
Defined.

(** ** Endpoints of weight zero *)

(** C4, as stated, fails: the error of an earlier test comes first.  In the
    first message the second entry survives and has an endpoint of weight
    zero, but it repeats the identity and the priority of the first: the
    parser returns the duplicate-locality error.  In the second message the
    entry before the surviving one carries no identity: the parser returns
    the missing-identity error. *)
Lemma C4_counterexample :
  surviving (Sample.locality (Sample.region "A") 0 1 [Sample.ep 0]) = true ∧
  hasZeroWeightEndpoint (Sample.locality (Sample.region "A") 0 1 [Sample.ep 0]) ∧
  parseEDSRespProto Sample.ToString (Some Sample.duplicateWithZero) =
    Returns (EndpointsUpdate_zero, Some (ErrDuplicateLocality "A//" 0)) ∧
  parseEDSRespProto Sample.ToString (Some Sample.anonymousThenZero) =
    Returns (EndpointsUpdate_zero,
             Some (ErrNoLocalityID (Sample.anonymous 0 1 [Sample.ep 1]))).
Proof.
  split_and!; [reflexivity| |reflexivity..].
  exists (Sample.ep 0). split; [by left | reflexivity].
Qed.

(** C4, amended.  A message with a surviving locality that has an endpoint
    of weight zero is rejected as a whole; the error is the
    zero-weight-endpoint error when every entry before that locality carries
    an identity and no two surviving entries up to and including it share an
    identity at a priority.  And in an update returned without error every
    locality, and every endpoint of every locality, has a weight above
    zero. *)
Theorem C4_zero_weight_endpoint (ToString : LocalityID → string)
    (m : pb.ClusterLoadAssignment) :
  (∀ pre e suf,
     pb.Endpoints m = pre ++ e :: suf →
     surviving e = true → hasZeroWeightEndpoint e →
     (∃ err, parseEDSRespProto ToString (Some m) = failsWith err) ∧
     (allIdentified pre → noDuplicate ToString (pre ++ [e]) →
      ∃ ep, endpointWeight ep = 0 ∧
            parseEDSRespProto ToString (Some m) =
            failsWith (ErrZeroWeightEndpoint ep))) ∧
  (∀ u, parseEDSRespProto ToString (Some m) = Returns (u, None) →
        Forall (λ l, 0 < Weight l ∧ Forall (λ ep, 0 < EWeight ep) (Endpoints l))
               (Localities u)).
Proof.
  split.
  - intros pre e suf Hm Hs Hz. split.
    { apply parse_fails_unless. intros (_ & Hzero & _).
      unfold noZeroWeightEndpoint in Hzero.
      rewrite Hm, Forall_app, Forall_cons in Hzero.
      destruct Hzero as (_ & Hz' & _). by apply Hz'. }
    intros Hids Hnodup.
    destruct (for_range (parseEDSRespProto_body ToString) (afterDrops m, ∅) pre)
      as [[ret priorities]|r] eqn:Hpre.
    + apply loop_falls in Hpre as Hfalls. destruct Hfalls as (_ & _ & _ & _ & Hseen & _).
      destruct (body_cases ToString ret priorities e)
        as [[? _]|[(_ & ? & _)|[(_ & Hin & _)|[(_ & _ & ep & _ & Hw & Hb)|
            (_ & _ & Hall & _)]]]].
      * by apply surviving_true in Hs as [? _].
      * by apply surviving_true in Hs as [_ ?].
      * apply Hseen in Hin as [Hemp|(e0 & Hin & Hs0 & Hp0 & Hid0)].
        { by rewrite seenAt_empty in Hemp. }
        apply list_elem_of_lookup_1 in Hin as [i Hi].
        destruct (Hnodup i (length pre)). exists e0, e.
        split_and!; try done.
        -- by eapply lookup_lt_Some.
        -- by apply lookup_app_l_Some.
        -- by rewrite list_lookup_middle.
      * exists ep. split; [done|]. by eapply parse_entry_exit.
      * destruct Hz as (ep & Hin & Hw). rewrite Forall_forall in Hall.
        by destruct (Hall ep Hin).
    + pose proof Hpre as Hr.
      apply loop_exits in Hr
        as (pre0 & e0 & suf0 & err & Hpre0 & -> & _ &
            [[Hid0 _]|[(_ & [i Hd] & _)|(_ & ep & _ & Hw & ->)]]).
      * unfold allIdentified in Hids. rewrite Hpre0, Forall_app, Forall_cons in Hids.
        by destruct Hids as (_ & ? & _).
      * destruct (Hnodup i (length pre0)).
        by apply duplicatePair_app_l.
      * exists ep. split; [done|]. by eapply parse_prefix_exit.
  - intros u Hparse.
    destruct (parse_cases ToString m)
      as [(Hp & _ & Hzero & _)|[(i & ps & Hp & _)|(pre & e & suf & err & _ & Hp & _)]];
      rewrite Hp in Hparse; try done.
    injection Hparse as <-. unfold successUpdate. cbn [Localities].
    rewrite Forall_fmap, Forall_forall.
    intros e [Hs Hin]%list_elem_of_filter. cbn. split.
    + apply surviving_true in Hs as [_ ?]. lia.
    + rewrite Forall_fmap, Forall_forall. intros ep Hep. cbn.
      unfold noZeroWeightEndpoint in Hzero. rewrite Forall_forall in Hzero.
      assert (endpointWeight ep ≠ 0); [|lia].
      intros Hw. apply (Hzero e Hin Hs). by exists ep.
Qed.

Lemma C4_witness :
  (pb.Endpoints Sample.zeroSecond =
     [Sample.locality (Sample.region "A") 0 1 [Sample.ep 1]] ++
     Sample.locality (Sample.region "B") 0 1 [Sample.ep 1; Sample.ep 0] :: [] ∧
   surviving (Sample.locality (Sample.region "B") 0 1 [Sample.ep 1; Sample.ep 0])
     = true ∧
   hasZeroWeightEndpoint
     (Sample.locality (Sample.region "B") 0 1 [Sample.ep 1; Sample.ep 0]) ∧
   allIdentified [Sample.locality (Sample.region "A") 0 1 [Sample.ep 1]] ∧
   noDuplicate Sample.ToString
     ([Sample.locality (Sample.region "A") 0 1 [Sample.ep 1]] ++
      [Sample.locality (Sample.region "B") 0 1 [Sample.ep 1; Sample.ep 0]])) ∧
  ∃ ep, endpointWeight ep = 0 ∧
        parseEDSRespProto Sample.ToString (Some Sample.zeroSecond) =
        failsWith (ErrZeroWeightEndpoint ep).
Proof.
  assert (hasZeroWeightEndpoint
            (Sample.locality (Sample.region "B") 0 1 [Sample.ep 1; Sample.ep 0]))
    as Hz by (exists (Sample.ep 0); split; [by right; left | reflexivity]).
  assert (allIdentified [Sample.locality (Sample.region "A") 0 1 [Sample.ep 1]])
    as Hids by (apply allIdentifiedb_sound; reflexivity).
  assert (noDuplicate Sample.ToString
     ([Sample.locality (Sample.region "A") 0 1 [Sample.ep 1]] ++
      [Sample.locality (Sample.region "B") 0 1 [Sample.ep 1; Sample.ep 0]]))
    as Hnodup by (apply noDuplicateb_sound; vm_compute; reflexivity).
  split; [split_and!; done|].
  exact (proj2 (proj1 (C4_zero_weight_endpoint Sample.ToString Sample.zeroSecond)
                  [Sample.locality (Sample.region "A") 0 1 [Sample.ep 1]]
                  (Sample.locality (Sample.region "B") 0 1 [Sample.ep 1; Sample.ep 0])
                  [] eq_refl eq_refl Hz) Hids Hnodup).
Defined.

(** ** Drop policies *)

(** C5, as stated, fails twice.  A drop overload whose percentage, and so
    its base, is unset gets the denominator 100: the getter reads an unset
    base as HUNDRED.  And when the parse fails the update returned is the
    zero value, without the drop configurations of the message. *)
Lemma C5_counterexample :
  Denominator (parseDropPolicy
    (Some {| pb.Category := "lb"; pb.DropPercentage := None |})) = 100 ∧
  (length (pb.GetDropOverloads (pb.GetPolicy (Some Sample.droppingAnonymous))) = 1%nat ∧
   ∃ err, parseEDSRespProto Sample.ToString (Some Sample.droppingAnonymous) =
            Returns ({| Drops := []; Localities := []; Raw := None |}, Some err)).
Proof. split_and!; [reflexivity..|]. eexists. reflexivity. Qed.

(** C5, amended.  On every message on which the parser succeeds, the drops
    of the update are one configuration per drop-overload entry, in the
    order of the message.  In each the category and the numerator are those
    of the entry; the denominator is 100, 10000, 1000000 for the bases
    HUNDRED, TEN_THOUSAND, MILLION, and 0 for any other base; an unset base
    reads as HUNDRED and gives 100. *)
Theorem C5_drop_policies (ToString : LocalityID → string)
    (m : pb.ClusterLoadAssignment) :
  (∀ u, parseEDSRespProto ToString (Some m) = Returns (u, None) →
        Drops u = parseDropPolicy <$> pb.GetDropOverloads (pb.GetPolicy (Some m))) ∧
  (∀ dropPolicy,
     let base := pb.GetDenominator (pb.GetDropPercentage dropPolicy) in
     let c := parseDropPolicy dropPolicy in
     Category c = pb.GetCategory dropPolicy ∧
     Numerator c = pb.GetNumerator (pb.GetDropPercentage dropPolicy) ∧
     (base = pb.FractionalPercent_HUNDRED → Denominator c = 100) ∧
     (base = pb.FractionalPercent_TEN_THOUSAND → Denominator c = 10000) ∧
     (base = pb.FractionalPercent_MILLION → Denominator c = 1000000) ∧
     (base ≠ pb.FractionalPercent_HUNDRED →
      base ≠ pb.FractionalPercent_TEN_THOUSAND →
      base ≠ pb.FractionalPercent_MILLION → Denominator c = 0) ∧
     (pb.GetDropPercentage dropPolicy = None → Denominator c = 100)).
Proof.
  split.
  - intros u Hparse.
    destruct (parse_cases ToString m)
      as [(Hp & _)|[(i & ps & Hp & _)|(pre & e & suf & err & _ & Hp & _)]];
      rewrite Hp in Hparse; try done.
    by injection Hparse as <-.
  - intros dropPolicy base c. unfold c, parseDropPolicy. cbn. fold base.
    split_and!; try done.
    + intros ->. done.
    + intros ->. done.
    + intros ->. done.
    + intros H1 H2 H3. by rewrite !decide_False.
    + unfold base. intros ->. done.
Qed.

Lemma C5_witness :
  parseEDSRespProto Sample.ToString (Some Sample.dropping) =
    Returns (successUpdate Sample.dropping, None) ∧
  Drops (successUpdate Sample.dropping) =
    [ {| Category := "lb"; Numerator := 5; Denominator := 100 |};
      {| Category := "throttle"; Numerator := 30; Denominator := 10000 |};
      {| Category := "shed"; Numerator := 7; Denominator := 1000000 |};
      {| Category := "other"; Numerator := 9; Denominator := 0 |} ].
Proof.
  split; [reflexivity|].
  exact (proj1 (C5_drop_policies Sample.ToString Sample.dropping)
           (successUpdate Sample.dropping) eq_refl).
Defined.

(** ** Localities without identity *)

(** C6, as stated, fails: the error of an earlier entry comes first.  Here
    the third entry carries no identity, and the second one repeats the
    first: the parser returns the duplicate-locality error. *)
Lemma C6_counterexample :
  lacksID (Sample.anonymous 0 1 [Sample.ep 1]) ∧
  parseEDSRespProto Sample.ToString
    (Some (Sample.message
       [Sample.locality (Sample.region "A") 0 1 [Sample.ep 1];
        Sample.locality (Sample.region "A") 0 1 [Sample.ep 1];
        Sample.anonymous 0 1 [Sample.ep 1]])) =
  Returns (EndpointsUpdate_zero, Some (ErrDuplicateLocality "A//" 0)).
Proof. split; reflexivity. Qed.

(** C6, amended.  A message with a locality entry that carries no identity
    is rejected as a whole, whatever the weight and the position of that
    entry.  The error is the missing-identity error when, among the entries
    before it, no surviving one has an endpoint of weight zero and no two
    surviving ones share an identity at a priority; it then names an entry
    without identity, that one or an earlier one. *)
Theorem C6_missing_identity_rejected (ToString : LocalityID → string)
    (m : pb.ClusterLoadAssignment)
    (pre suf : list (option pb.LocalityLbEndpoints))
    (e : option pb.LocalityLbEndpoints) :
  pb.Endpoints m = pre ++ e :: suf → lacksID e →
  (∃ err, parseEDSRespProto ToString (Some m) = failsWith err) ∧
  (noZeroWeightEndpoint pre → noDuplicate ToString pre →
   ∃ e0, e0 ∈ pre ++ [e] ∧ lacksID e0 ∧
         parseEDSRespProto ToString (Some m) = failsWith (ErrNoLocalityID e0)).
Proof.
  intros Hm Hid. split.
  - apply parse_fails_unless. intros (Hids & _). unfold allIdentified in Hids.
    rewrite Hm, Forall_app, Forall_cons in Hids. by destruct Hids as (_ & ? & _).
  - intros Hzero Hnodup.
    destruct (for_range (parseEDSRespProto_body ToString) (afterDrops m, ∅) pre)
      as [[ret priorities]|r] eqn:Hpre.
    + exists e. split_and!; [set_solver | done |].
      eapply parse_entry_exit; [done..|].
      by destruct (body_cases ToString ret priorities e)
        as [[_ ->]|[(? & _)|[(Hs & _)|[(Hs & _)|(Hs & _)]]]];
        try done; apply surviving_true in Hs as [? _].
    + pose proof Hpre as Hr.
      apply loop_exits in Hr
        as (pre0 & e0 & suf0 & err & -> & -> & _ &
            [[Hid0 ->]|[(_ & [i Hd] & _)|(Hs & ep & Hin & Hz & _)]]).
      * exists e0. split_and!; [set_solver | done |].
        by eapply parse_prefix_exit.
      * by apply Hnodup in Hd.
      * unfold noZeroWeightEndpoint in Hzero.
        rewrite Forall_app, Forall_cons in Hzero. destruct Hzero as (_ & Hz' & _).
        destruct (Hz' Hs). by exists ep.
Qed.

Lemma C6_witness :
  (pb.Endpoints Sample.anonymousSecond =
     [Sample.locality (Sample.region "A") 0 1 [Sample.ep 1]] ++
     Sample.anonymous 3 0 [] :: [] ∧
   lacksID (Sample.anonymous 3 0 [])) ∧
  (∃ err, parseEDSRespProto Sample.ToString (Some Sample.anonymousSecond) =
          failsWith err) ∧
  (noZeroWeightEndpoint [Sample.locality (Sample.region "A") 0 1 [Sample.ep 1]] →
   noDuplicate Sample.ToString
     [Sample.locality (Sample.region "A") 0 1 [Sample.ep 1]] →
   ∃ e0, e0 ∈ [Sample.locality (Sample.region "A") 0 1 [Sample.ep 1]] ++
              [Sample.anonymous 3 0 []] ∧
         lacksID e0 ∧
         parseEDSRespProto Sample.ToString (Some Sample.anonymousSecond) =
         failsWith (ErrNoLocalityID e0)).
Proof.
  split; [split; reflexivity|].
  apply (C6_missing_identity_rejected Sample.ToString Sample.anonymousSecond
           [Sample.locality (Sample.region "A") 0 1 [Sample.ep 1]] []
           (Sample.anonymous 3 0 [])); reflexivity.
Defined.

(** ** The declared name *)

(** C7.  For a resource whose envelope decodes to a message, the parser
    returns the declared name of the message (its cluster name) with
    whatever the validation gives, an update or an error; and the batch
    layer has an outcome recorded under that name, the outcome of a resource
    for which the parser returned it. *)
Theorem C7_declared_name_is_key
    (ToString : LocalityID → string)
    (unwrapResource : option pb.Any → option pb.Any * option string)
    (IsEndpointsResource : string → bool)
    (Unmarshal : list Byte.byte → pb.ClusterLoadAssignment * option string)
    (resources : list (option pb.Any))
    (r r' : option pb.Any) (cla : pb.ClusterLoadAssignment) :
  r ∈ resources →
  unwrapResource r = (r', None) →
  IsEndpointsResource (pb.GetTypeUrl r') = true →
  Unmarshal (pb.GetValue' r') = (cla, None) →
  (∃ u err,
     unmarshalEndpointsResource ToString unwrapResource IsEndpointsResource
       Unmarshal r = Returns (pb.ClusterName cla, u, err) ∧
     ∀ e, parseEDSRespProto ToString (Some cla) = failsWith e → err = Some e) ∧
  (∃ update,
     UnmarshalEndpoints ToString unwrapResource IsEndpointsResource Unmarshal
       resources = Returns update ∧
     ∃ r2 u2 err2,
       r2 ∈ resources ∧
       unmarshalEndpointsResource ToString unwrapResource IsEndpointsResource
         Unmarshal r2 = Returns (pb.ClusterName cla, u2, err2) ∧
       update !! pb.ClusterName cla = Some {| Update := u2; Err := err2 |}).
Proof.
  intros Hin Hunwrap Htype Hcla.
  assert (∃ u err,
     unmarshalEndpointsResource ToString unwrapResource IsEndpointsResource
       Unmarshal r = Returns (pb.ClusterName cla, u, err) ∧
     ∀ e, parseEDSRespProto ToString (Some cla) = failsWith e → err = Some e)
    as (u & err & Hr & Herr).
  { destruct (unmarshal_cases ToString unwrapResource IsEndpointsResource Unmarshal r)
      as [(? & ? & H1 & _)|[(? & H1 & H2 & _)|[(? & ? & ? & H1 & _ & H3 & _)|
         [(? & ? & e & H1 & _ & H3 & Hp & Hr)|(? & ? & H1 & _ & H3 & Hp & Hr)]]]];
      rewrite Hunwrap in H1.
    - done.
    - injection H1 as <-. by rewrite Htype in H2.
    - injection H1 as <-. by rewrite Hcla in H3.
    - injection H1 as <-. rewrite Hcla in H3. injection H3 as <-.
      eexists _, _. split; [exact Hr|]. intros e' He'. rewrite Hp in He'.
      by injection He' as ->.
    - injection H1 as <-. rewrite Hcla in H3. injection H3 as <-.
      eexists _, _. split; [exact Hr|]. intros e' He'. by rewrite Hp in He'. }
  split; [by exists u, err|].
  destruct (processAllResources_spec
              (unmarshalEndpointsResource ToString unwrapResource
                 IsEndpointsResource Unmarshal) resources ∅
              (unmarshal_returns ToString unwrapResource IsEndpointsResource Unmarshal))
    as (update & Hbatch & Hkeys).
  exists update. split; [done|]. by eapply Hkeys.
Qed.

Lemma C7_witness :
  (Sample.resource Sample.endpointsURL Byte.x02 ∈
     [Sample.resource Sample.endpointsURL Byte.x01;
      Sample.resource Sample.endpointsURL Byte.x02] ∧
   Sample.unwrapResource (Sample.resource Sample.endpointsURL Byte.x02) =
     (Sample.resource Sample.endpointsURL Byte.x02, None) ∧
   Sample.IsEndpointsResource
     (pb.GetTypeUrl (Sample.resource Sample.endpointsURL Byte.x02)) = true ∧
   Sample.Unmarshal (pb.GetValue' (Sample.resource Sample.endpointsURL Byte.x02)) =
     (Sample.anonymousOnly, None)) ∧
  ∃ u err,
    Sample.unmarshalEndpointsResource (Sample.resource Sample.endpointsURL Byte.x02) =
      Returns (pb.ClusterName Sample.anonymousOnly, u, err) ∧
    ∀ e, parseEDSRespProto Sample.ToString (Some Sample.anonymousOnly) = failsWith e →
         err = Some e.
Proof.
  assert (Sample.resource Sample.endpointsURL Byte.x02 ∈
     [Sample.resource Sample.endpointsURL Byte.x01;
      Sample.resource Sample.endpointsURL Byte.x02]) as Hin by (right; left).
  split; [split_and!; [exact Hin | reflexivity..]|].
  exact (proj1 (C7_declared_name_is_key Sample.ToString Sample.unwrapResource
                  Sample.IsEndpointsResource Sample.Unmarshal
                  [Sample.resource Sample.endpointsURL Byte.x01;
                   Sample.resource Sample.endpointsURL Byte.x02]
                  (Sample.resource Sample.endpointsURL Byte.x02)
                  (Sample.resource Sample.endpointsURL Byte.x02)
                  Sample.anonymousOnly Hin eq_refl eq_refl eq_refl)).
Defined.

(** ** A single healthy endpoint *)

(** C8.  A message whose localities are exactly one entry, of priority 0,
    identity A and weight 1, with the one endpoint 10.0.0.1:80 of weight 1
    and health HEALTHY, and which has no drop policy (no policy at all, or a
    policy without drop overloads), is parsed successfully: the update has no
    drops and exactly one locality, of identity A, weight 1 and priority 0,
    with exactly one endpoint, of address "10.0.0.1:80", weight 1 and health
    status HEALTHY. *)
Theorem C8_single_locality (ToString : LocalityID → string)
    (name region zone subZone : string) :
  let A := {| pb.Region := region; pb.Zone := zone; pb.SubZone := subZone |} in
  let localities :=
    [Sample.locality A 0 1
       [Sample.lbEndpoint "10.0.0.1" 80 1 pb.HealthStatus_HEALTHY]] in
  let expected :=
    {| Drops := [];
       Localities := [
         {| ID := {| Region := region; Zone := zone; SubZone := subZone |};
            Endpoints := [ {| EAddress := "10.0.0.1:80";
                              EHealthStatus := 1;
                              EWeight := 1 |} ];
            Weight := 1;
            Priority := 0 |} ];
       Raw := None |} in
  parseEDSRespProto ToString
    (Some {| pb.ClusterName := name; pb.Endpoints := localities;
             pb.CPolicy := None |}) = Returns (expected, None) ∧
  parseEDSRespProto ToString
    (Some {| pb.ClusterName := name; pb.Endpoints := localities;
             pb.CPolicy := Some {| pb.DropOverloads := [] |} |})
    = Returns (expected, None).
Proof.
  intros A localities expected.
  assert (∀ ret, for_range (parseEDSRespProto_body ToString) (ret, ∅) localities =
    Falls ({| Drops := Drops ret;
              Localities := Localities ret ++ Localities expected;
              Raw := Raw ret |},
           {[ 0 := {[ ToString (localityID (Sample.locality A 0 1 [])) ]} ]}))
    as Hloop.
  { intros ret. unfold localities. cbn [for_range]. rewrite body_eq.
    cbn [pb.GetLocality pb.get Sample.locality pb.LLocality].
    rewrite decide_False by done.
    rewrite seenAt_empty, decide_False by apply not_elem_of_empty.
    unfold record. rewrite seenAt_empty, (right_id_L ∅ (∪)). done. }
  assert (∀ s : gset string,
    for_range (priority_body {[ 0 := s ]}) ()
      (seqZ 0 (Z.of_nat (size ({[ 0 := s ]} : gmap N (gset string))))) = Falls ())
    as Hprio.
  { intros s. rewrite map_size_singleton. change (seqZ 0 (Z.of_nat 1)) with [0%Z].
    cbn [for_range]. unfold priority_body.
    change (uint32 0) with 0. by rewrite lookup_singleton_eq. }
  split; rewrite parse_unfold, Hloop, Hprio; reflexivity.
Qed.

(** ** Totality *)

(** The nil test of the source protects [l.Region]; nothing protects
    [m.Endpoints], and [parseEDSRespProto] panics on a nil message.  Its one
    caller passes the address of a fresh message. *)
Example parseEDSRespProto_nil ToString : parseEDSRespProto ToString None = Panics.
Proof. reflexivity. Qed.

(** C9.  The resource parser is total.  Whatever the resource and whatever
    the collaborators return, [unmarshalEndpointsResource] returns a name, an
    update and possibly an error, and does not panic; so does
    [parseEDSRespProto] on every message.  Each error branch returns: on the
    sample resources, the unwrap failure, the wrong resource type, the decode
    failure, the missing identity, the duplicate locality, the endpoint of
    weight zero and the missing priority. *)
Theorem C9_parser_total :
  (∀ ToString unwrapResource IsEndpointsResource Unmarshal r,
     ∃ name u err,
       unmarshalEndpointsResource ToString unwrapResource IsEndpointsResource
         Unmarshal r = Returns (name, u, err)) ∧
  (∀ ToString m,
     ∃ u err, parseEDSRespProto ToString (Some m) = Returns (u, err)) ∧
  (Sample.unmarshalEndpointsResource (Sample.resource Sample.wrapperURL Byte.x01) =
     Returns ("", EndpointsUpdate_zero,
              Some (ErrUnwrap "cannot parse the wrapped resource")) ∧
   Sample.unmarshalEndpointsResource (Sample.resource "type.googleapis.com/other" Byte.x01) =
     Returns ("", EndpointsUpdate_zero,
              Some (ErrResourceType "type.googleapis.com/other")) ∧
   Sample.unmarshalEndpointsResource (Sample.resource Sample.endpointsURL Byte.xff) =
     Returns ("", EndpointsUpdate_zero,
              Some (ErrUnmarshal "cannot parse the message")) ∧
   Sample.unmarshalEndpointsResource (Sample.resource Sample.endpointsURL Byte.x02) =
     Returns ("cluster", EndpointsUpdate_zero,
              Some (ErrNoLocalityID (Sample.anonymous 0 1 [Sample.ep 1]))) ∧
   Sample.unmarshalEndpointsResource (Sample.resource Sample.endpointsURL Byte.x03) =
     Returns ("cluster", EndpointsUpdate_zero,
              Some (ErrDuplicateLocality "A//" 0)) ∧
   Sample.unmarshalEndpointsResource (Sample.resource Sample.endpointsURL Byte.x04) =
     Returns ("cluster", EndpointsUpdate_zero,
              Some (ErrZeroWeightEndpoint (Sample.ep 0))) ∧
   ∃ priorities,
     Sample.unmarshalEndpointsResource (Sample.resource Sample.endpointsURL Byte.x05) =
       Returns ("cluster", EndpointsUpdate_zero,
                Some (ErrMissingPriority 1 priorities))).
Proof.
  split_and!; try reflexivity.
  - intros ToString unwrapResource IsEndpointsResource Unmarshal r.
    destruct (unmarshal_returns ToString unwrapResource IsEndpointsResource
                Unmarshal r) as [[[name u] err] Hr].
    by exists name, u, err.
  - intros ToString m.
    destruct (parse_outcome ToString m) as [Hp|[e Hp]]; rewrite Hp; by eexists _, _.
  - eexists. reflexivity.
Qed.

(** ** The update that comes with an error *)

(** C10.  Whenever the parse of a resource comes with an error, the update
    that comes with it is the zero value: no drops, no localities and no raw
    payload.  The raw payload, the unwrapped resource, is attached to the
    update when there is no error, by [unmarshalEndpointsResource];
    [parseEDSRespProto] itself never attaches one. *)
Theorem C10_zero_update_on_error
    (ToString : LocalityID → string)
    (unwrapResource : option pb.Any → option pb.Any * option string)
    (IsEndpointsResource : string → bool)
    (Unmarshal : list Byte.byte → pb.ClusterLoadAssignment * option string) :
  (∀ r, ∃ name u err,
     unmarshalEndpointsResource ToString unwrapResource IsEndpointsResource
       Unmarshal r = Returns (name, u, err) ∧
     match err with
     | Some _ => u = EndpointsUpdate_zero
     | None => Raw u = (unwrapResource r).1
     end) ∧
  (∀ m, ∃ u err,
     parseEDSRespProto ToString (Some m) = Returns (u, err) ∧
     match err with
     | Some _ => u = EndpointsUpdate_zero
     | None => Raw u = None
     end).
Proof.
  split.
  - intros r.
    destruct (unmarshal_cases ToString unwrapResource IsEndpointsResource Unmarshal r)
      as [(? & ? & _ & ->)|[(? & _ & _ & ->)|[(? & ? & ? & _ & _ & _ & ->)|
         [(? & ? & ? & _ & _ & _ & _ & ->)|(? & ? & Hunwrap & _ & _ & _ & ->)]]]];
      eexists _, _, _; (split; [done|]); try done.
    by rewrite Hunwrap.
  - intros m.
    destruct (parse_outcome ToString m) as [Hp|[e Hp]]; rewrite Hp;
      eexists _, _; (split; [done|]); done.
Qed.

(** * Further properties of the parser *)

(** ** Auxiliary facts *)

Lemma duplicatePair_tail ToString e ls i j :
  duplicatePair ToString ls i j → duplicatePair ToString (e :: ls) (S i) (S j).
Proof.
  intros (e1 & e2 & Hlt & H1 & H2 & Hrest). exists e1, e2.
  split_and!; [lia | done | done | ..]; apply Hrest.
Qed.

(** The absence of duplicate pairs, as the absence of repetitions in the
    list of the keys of the surviving entries. *)
Lemma noDuplicate_NoDup ToString ls :
  noDuplicate ToString ls ↔
  NoDup (localityKey ToString <$> filter (λ e, surviving e = true) ls).
Proof.
  split.
  - induction ls as [|e ls IH]; intros Hnodup; [constructor|].
    assert (noDuplicate ToString ls) as Htail.
    { intros i j Hd. by apply (Hnodup (S i) (S j)), duplicatePair_tail. }
    destruct (surviving e) eqn:Hs.
    + rewrite surviving_cons_true, fmap_cons by done. constructor; [|by apply IH].
      intros (e2 & Hkey & [Hs2 Hin]%list_elem_of_filter)%list_elem_of_fmap.
      apply list_elem_of_lookup_1 in Hin as [j Hj].
      apply (Hnodup 0%nat (S j)). exists e, e2. injection Hkey as Hp Hid.
      split_and!; [lia | done..].
    + rewrite surviving_cons_false by congruence. by apply IH.
  - intros Hnodup. apply noDuplicateb_sound. by apply bool_decide_eq_true.
Qed.

Lemma surviving_filter_all (ls : list (option pb.LocalityLbEndpoints)) :
  Forall (λ e, surviving e = true) ls →
  filter (λ e, surviving e = true) ls = ls.
Proof.
  induction 1 as [|e ls Hs _ IH]; [done|].
  by rewrite surviving_cons_true, IH.
Qed.

Lemma localityOf_key ToString e :
  updateKey ToString (localityOf e) = localityKey ToString e.
Proof. reflexivity. Qed.

(** ** The endpoints of a locality *)

(** X1.  [parseEndpoints] accepts a list exactly when no endpoint in it has weight
    zero, and then returns one endpoint per entry, in the order of the list,
    each with the health status, the address and the weight of its entry.
    Otherwise it returns no endpoint and the error names the first entry of
    weight zero. *)
Theorem parseEndpoints_characterised (lbEndpoints : list (option pb.LbEndpoint)) :
  (Forall (λ ep, endpointWeight ep ≠ 0) lbEndpoints ↔
   ∃ endpoints, parseEndpoints lbEndpoints = (endpoints, None)) ∧
  (∀ endpoints, parseEndpoints lbEndpoints = (endpoints, None) →
     length endpoints = length lbEndpoints ∧
     ∀ i ep, lbEndpoints !! i = Some ep →
       endpoints !! i =
         Some {| EAddress := parseAddress
                   (pb.GetSocketAddress (pb.GetAddress (pb.GetEndpoint ep)));
                 EHealthStatus := pb.GetHealthStatus ep;
                 EWeight := endpointWeight ep |}) ∧
  (∀ endpoints err, parseEndpoints lbEndpoints = (endpoints, Some err) →
     endpoints = [] ∧
     ∃ pre ep suf,
       lbEndpoints = pre ++ ep :: suf ∧
       Forall (λ ep, endpointWeight ep ≠ 0) pre ∧
       endpointWeight ep = 0 ∧ err = ErrZeroWeightEndpoint ep).
Proof.
  split_and!.
  - destruct (parseEndpoints_spec lbEndpoints) as [[Hall Hp]|(ep & Hin & Hz & Hp)].
    + split; [by eexists | done].
    + split.
      * rewrite Forall_forall. intros Hall. by destruct (Hall ep Hin).
      * intros [endpoints Hp']. by rewrite Hp in Hp'.
  - intros endpoints Hp.
    destruct (parseEndpoints_spec lbEndpoints) as [[_ Hp']|(ep & _ & _ & Hp')];
      rewrite Hp' in Hp; [|done]. injection Hp as <-. split.
    + by rewrite length_fmap.
    + intros i ep Hi. by rewrite list_lookup_fmap, Hi.
  - intros endpoints err. unfold parseEndpoints.
    destruct (for_range parseEndpoints_body [] lbEndpoints) as [eps|r] eqn:Hloop;
      [done|].
    intros ->. apply for_range_exits in Hloop
      as (pre & ep & suf & acc & -> & Hpre & Hbody).
    pose proof (parseEndpoints_loop [] pre) as Hprefix. rewrite Hpre in Hprefix.
    destruct Hprefix as [_ Hall]. rewrite parseEndpoints_body_eq in Hbody.
    case_decide as Hz; [|done]. injection Hbody as <- <-.
    split; [done|]. by exists pre, ep, suf.
Qed.

Lemma parseEndpoints_characterised_witness :
  parseEndpoints [Sample.ep 2; Sample.ep 0; Sample.ep 0] =
    ([], Some (ErrZeroWeightEndpoint (Sample.ep 0))) ∧
  ([] : list Endpoint) = [] ∧
  ∃ pre ep suf,
    [Sample.ep 2; Sample.ep 0; Sample.ep 0] = pre ++ ep :: suf ∧
    Forall (λ ep, endpointWeight ep ≠ 0) pre ∧
    endpointWeight ep = 0 ∧
    ErrZeroWeightEndpoint (Sample.ep 0) = ErrZeroWeightEndpoint ep.
Proof.
  split; [reflexivity|].
  exact (proj2 (proj2 (parseEndpoints_characterised
                         [Sample.ep 2; Sample.ep 0; Sample.ep 0]))
           [] (ErrZeroWeightEndpoint (Sample.ep 0)) eq_refl).
Defined.

(** ** What the parser accepts *)

Lemma parse_success_inv ToString m u :
  parseEDSRespProto ToString (Some m) = Returns (u, None) →
  u = successUpdate m ∧ allIdentified (pb.Endpoints m) ∧
  noZeroWeightEndpoint (pb.Endpoints m) ∧ noDuplicate ToString (pb.Endpoints m) ∧
  Forall (λ i, uint32 i ∈ survivingPriorities (pb.Endpoints m))
         (seqZ 0 (Z.of_nat (size (survivingPriorities (pb.Endpoints m))))).
Proof.
  intros Hparse.
  destruct (parse_cases ToString m)
    as [(Hp & Hrest)|[(i & ps & Hp & _)|(pre & e & suf & err & _ & Hp & _)]];
    rewrite Hp in Hparse; try done.
  by injection Hparse as <-.
Qed.

Lemma parse_success_if ToString m :
  Forall (λ e, pb.GetPriority e < 2 ^ 32) (pb.Endpoints m) →
  allIdentified (pb.Endpoints m) → noZeroWeightEndpoint (pb.Endpoints m) →
  noDuplicate ToString (pb.Endpoints m) →
  (∀ p, p ∈ survivingPriorities (pb.Endpoints m) ↔
        p < N.of_nat (size (survivingPriorities (pb.Endpoints m)))) →
  parseEDSRespProto ToString (Some m) = Returns (successUpdate m, None).
Proof.
  intros Hbound32 Hids Hzero Hnodup Hcontiguous.
  pose proof (survivingPriorities_bound _ Hbound32) as Hbound.
  destruct (parse_cases ToString m)
    as [(Hp & _)|[(i & ps & _ & _ & _ & _ & _ & Hi & Hmiss)|
        (pre & e & suf & err & Hm & _ & _ & Hkind)]]; [done|exfalso..].
  - assert (size (survivingPriorities (pb.Endpoints m)) ≤ N.to_nat (2 ^ 32))%nat.
    { apply size_below. intros x Hx%Hbound. lia. }
    rewrite uint32_small in Hmiss by lia. apply Hmiss, Hcontiguous. lia.
  - destruct Hkind as [[Hid _]|[(_ & [i Hd] & _)|(Hs & ep & Hin & Hw & _)]].
    + unfold allIdentified in Hids. rewrite Hm, Forall_app, Forall_cons in Hids.
      by destruct Hids as (_ & ? & _).
    + by apply Hnodup in Hd.
    + unfold noZeroWeightEndpoint in Hzero.
      rewrite Hm, Forall_app, Forall_cons in Hzero.
      destruct Hzero as (_ & Hz' & _). apply (Hz' Hs). by exists ep.
Qed.

(** X2.  The parser accepts a message (whose priorities are 32-bit numbers)
    exactly when every locality entry carries an identity, no surviving
    entry has an endpoint of weight zero, no two surviving entries have the
    same identity string at the same priority, and the priorities of the
    surviving entries are the numbers below their count.  Nothing else is
    validated. *)
Theorem parseEDSRespProto_accepts_iff (ToString : LocalityID → string)
    (m : pb.ClusterLoadAssignment) :
  Forall (λ e, pb.GetPriority e < 2 ^ 32) (pb.Endpoints m) →
  ((∃ u, parseEDSRespProto ToString (Some m) = Returns (u, None)) ↔
   allIdentified (pb.Endpoints m) ∧
   noZeroWeightEndpoint (pb.Endpoints m) ∧
   NoDup (localityKey ToString <$>
          filter (λ e, surviving e = true) (pb.Endpoints m)) ∧
   ∀ p, p ∈ survivingPriorities (pb.Endpoints m) ↔
        p < N.of_nat (size (survivingPriorities (pb.Endpoints m)))).
Proof.
  intros Hbound32. rewrite <-noDuplicate_NoDup. split.
  - intros [u (_ & Hids & Hzero & Hnodup & Hall)%parse_success_inv].
    split_and!; try done.
    apply priorities_contiguous; [|done].
    by apply survivingPriorities_bound.
  - intros (Hids & Hzero & Hnodup & Hcontiguous).
    eexists. by apply parse_success_if.
Qed.

Lemma parseEDSRespProto_accepts_iff_witness :
  Forall (λ e, pb.GetPriority e < 2 ^ 32) (pb.Endpoints Sample.twoTiers) ∧
  (∃ u, parseEDSRespProto Sample.ToString (Some Sample.twoTiers) = Returns (u, None)) ∧
  allIdentified (pb.Endpoints Sample.twoTiers) ∧
  noZeroWeightEndpoint (pb.Endpoints Sample.twoTiers) ∧
  NoDup (localityKey Sample.ToString <$>
         filter (λ e, surviving e = true) (pb.Endpoints Sample.twoTiers)) ∧
  ∀ p, p ∈ survivingPriorities (pb.Endpoints Sample.twoTiers) ↔
       p < N.of_nat (size (survivingPriorities (pb.Endpoints Sample.twoTiers))).
Proof.
  assert (Forall (λ e, pb.GetPriority e < 2 ^ 32) (pb.Endpoints Sample.twoTiers))
    as Hbound by (repeat constructor).
  assert (∃ u, parseEDSRespProto Sample.ToString (Some Sample.twoTiers) =
               Returns (u, None)) as Hok by (eexists; reflexivity).
  split; [exact Hbound|]. split; [exact Hok|].
  exact (proj1 (parseEDSRespProto_accepts_iff Sample.ToString Sample.twoTiers Hbound)
           Hok).
Defined.

(** ** The update of an accepted message *)

(** X3.  On success the update holds, in the order of the message, one drop
    configuration per drop overload and one locality per surviving entry
    (entries of weight zero leave no trace, the others are not reordered);
    the locality of an entry has its identity, its weight, its priority and
    one endpoint per endpoint entry; no raw payload is attached at this
    level. *)
Theorem parseEDSRespProto_update (ToString : LocalityID → string)
    (m : pb.ClusterLoadAssignment) (u : EndpointsUpdate) :
  parseEDSRespProto ToString (Some m) = Returns (u, None) →
  Drops u = parseDropPolicy <$> pb.GetDropOverloads (pb.GetPolicy (Some m)) ∧
  Localities u =
    (λ e, {| ID := localityID e;
             Endpoints := endpointOf <$> pb.GetLbEndpoints e;
             Weight := weightOf e;
             Priority := pb.GetPriority e |}) <$>
    filter (λ e, surviving e = true) (pb.Endpoints m) ∧
  Raw u = None ∧
  (length (Localities u) ≤ length (pb.Endpoints m))%nat ∧
  (Forall (λ e, weightOf e ≠ 0) (pb.Endpoints m) →
   length (Localities u) = length (pb.Endpoints m)).
Proof.
  intros (-> & Hids & _)%parse_success_inv. split_and!; try done.
  - cbn [successUpdate Localities]. rewrite length_fmap. apply length_filter.
  - intros Hw. cbn [successUpdate Localities]. rewrite length_fmap.
    f_equal. apply surviving_filter_all.
    unfold allIdentified in Hids. rewrite Forall_forall in Hids, Hw |- *.
    intros e He. apply surviving_true. split; [by apply Hids | by apply Hw].
Qed.

Lemma parseEDSRespProto_update_witness :
  parseEDSRespProto Sample.ToString (Some Sample.twoTiers) =
    Returns (successUpdate Sample.twoTiers, None) ∧
  Priority <$> Localities (successUpdate Sample.twoTiers) = [1; 0; 1] ∧
  (length (Localities (successUpdate Sample.twoTiers)) ≤
   length (pb.Endpoints Sample.twoTiers))%nat.
Proof.
  split; [reflexivity|]. split; [reflexivity|].
  exact (proj1 (proj2 (proj2 (proj2
           (parseEDSRespProto_update Sample.ToString Sample.twoTiers
              (successUpdate Sample.twoTiers) eq_refl))))).
Defined.

(** X4.  In an accepted update no two localities have the same priority and the
    same identity string. *)
Theorem parseEDSRespProto_unique_keys (ToString : LocalityID → string)
    (m : pb.ClusterLoadAssignment) (u : EndpointsUpdate) :
  parseEDSRespProto ToString (Some m) = Returns (u, None) →
  NoDup ((λ l, (Priority l, ToString (ID l))) <$> Localities u).
Proof.
  intros (-> & _ & _ & Hnodup & _)%parse_success_inv.
  apply noDuplicate_NoDup in Hnodup. cbn [successUpdate Localities].
  by rewrite <-list_fmap_compose.
Qed.

Lemma parseEDSRespProto_unique_keys_witness :
  parseEDSRespProto Sample.ToString (Some Sample.twoTiers) =
    Returns (successUpdate Sample.twoTiers, None) ∧
  NoDup ((λ l, (Priority l, Sample.ToString (ID l))) <$>
         Localities (successUpdate Sample.twoTiers)).
Proof.
  split; [reflexivity|].
  exact (parseEDSRespProto_unique_keys Sample.ToString Sample.twoTiers
           (successUpdate Sample.twoTiers) eq_refl).
Defined.

(** ** The first error *)

(** X5.  An error of the locality loop is the error of the first entry that the
    loop rejects: the entries before it all carry an identity, the
    surviving ones among them have no endpoint of weight zero and no two of
    them share an identity string at a priority; and the entry itself
    carries no identity, or repeats the key of a surviving entry before it,
    or has an endpoint of weight zero. *)
Theorem parseEDSRespProto_first_offender (ToString : LocalityID → string)
    (m : pb.ClusterLoadAssignment) (err : Error) :
  parseEDSRespProto ToString (Some m) = failsWith err →
  isLocalityError err →
  ∃ pre e suf,
    pb.Endpoints m = pre ++ e :: suf ∧
    allIdentified pre ∧ noZeroWeightEndpoint pre ∧ noDuplicate ToString pre ∧
    ((lacksID e ∧ err = ErrNoLocalityID e) ∨
     (surviving e = true ∧
      (∃ e1, e1 ∈ pre ∧ surviving e1 = true ∧
             localityKey ToString e1 = localityKey ToString e) ∧
      err = ErrDuplicateLocality (lidStrOf ToString e) (pb.GetPriority e)) ∨
     (surviving e = true ∧
      (∀ e1, e1 ∈ pre → surviving e1 = true →
             localityKey ToString e1 ≠ localityKey ToString e) ∧
      ∃ ep, ep ∈ pb.GetLbEndpoints e ∧ endpointWeight ep = 0 ∧
            err = ErrZeroWeightEndpoint ep)).
Proof.
  intros Hparse Hkind. rewrite parse_unfold in Hparse.
  destruct (for_range (parseEDSRespProto_body ToString) (afterDrops m, ∅)
              (pb.Endpoints m)) as [[ret priorities]|r] eqn:Hloop.
  { pose proof (priority_loop priorities
                  (seqZ 0 (Z.of_nat (size priorities)))) as Hprio.
    destruct (for_range (priority_body priorities) _ _) as [[]|r]; [done|].
    destruct Hprio as (i & _ & _ & ->). injection Hparse as <-. done. }
  apply for_range_exits in Hloop
    as (pre & e & suf & [ret1 priorities1] & Hm & Hpre & Hbody).
  apply loop_falls in Hpre as (Hids & Hzero & _ & _ & Hseen & _ & Hnodup).
  exists pre, e, suf. split_and!; try done.
  { eapply Forall_impl; [exact Hzero|]. intros e0 He0 Hs (ep & Hin & Hz).
    specialize (He0 Hs). rewrite Forall_forall in He0. by apply (He0 ep). }
  injection Hparse as ->.
  destruct (body_cases ToString ret1 priorities1 e)
    as [[Hid Hb]|[(_ & _ & Hb)|[(Hs & Hin & Hb)|[(Hs & Hnotin & ep & Hep & Hz & Hb)|
        (_ & _ & _ & Hb)]]]]; rewrite Hb in Hbody; try done;
    injection Hbody as <-.
  - by left.
  - right; left. split_and!; [done| |done].
    apply Hseen in Hin as [Hemp|(e1 & Hin1 & Hs1 & Hp1 & Hid1)].
    { by rewrite seenAt_empty in Hemp. }
    exists e1. split_and!; [done..|]. unfold localityKey. by rewrite Hp1, Hid1.
  - right; right. split_and!; [done| |by exists ep].
    intros e1 Hin1 Hs1 Hkey. injection Hkey as Hp1 Hid1. apply Hnotin, Hseen.
    right. by exists e1.
Qed.

Lemma parseEDSRespProto_first_offender_witness :
  (parseEDSRespProto Sample.ToString (Some Sample.duplicateThenGap) =
     failsWith (ErrDuplicateLocality "A//" 0) ∧
   isLocalityError (ErrDuplicateLocality "A//" 0)) ∧
  ∃ pre e suf,
    pb.Endpoints Sample.duplicateThenGap = pre ++ e :: suf ∧
    allIdentified pre ∧ noZeroWeightEndpoint pre ∧
    noDuplicate Sample.ToString pre ∧
    ((lacksID e ∧ ErrDuplicateLocality "A//" 0 = ErrNoLocalityID e) ∨
     (surviving e = true ∧
      (∃ e1, e1 ∈ pre ∧ surviving e1 = true ∧
             localityKey Sample.ToString e1 = localityKey Sample.ToString e) ∧
      ErrDuplicateLocality "A//" 0 =
        ErrDuplicateLocality (lidStrOf Sample.ToString e) (pb.GetPriority e)) ∨
     (surviving e = true ∧
      (∀ e1, e1 ∈ pre → surviving e1 = true →
             localityKey Sample.ToString e1 ≠ localityKey Sample.ToString e) ∧
      ∃ ep, ep ∈ pb.GetLbEndpoints e ∧ endpointWeight ep = 0 ∧
            ErrDuplicateLocality "A//" 0 = ErrZeroWeightEndpoint ep)).
Proof.
  split; [split; [reflexivity | exact I]|].
  exact (parseEDSRespProto_first_offender Sample.ToString Sample.duplicateThenGap
           (ErrDuplicateLocality "A//" 0) eq_refl I).
Defined.

(** X6.  Once the locality loop has rejected an entry, what follows it in the
    message is not looked at: a message rejected with an error of the
    locality loop is rejected with the same error however it is extended. *)
Theorem parseEDSRespProto_stops_at_first_error (ToString : LocalityID → string)
    (name : string) (policy : option pb.Policy)
    (ls suf : list (option pb.LocalityLbEndpoints)) (err : Error) :
  isLocalityError err →
  parseEDSRespProto ToString (Some (messageOf name policy ls)) = failsWith err →
  parseEDSRespProto ToString (Some (messageOf name policy (ls ++ suf))) =
    failsWith err.
Proof.
  intros Hkind. rewrite !parse_unfold. cbn [messageOf pb.Endpoints].
  change (afterDrops (messageOf name policy (ls ++ suf)))
    with (afterDrops (messageOf name policy ls)).
  rewrite for_range_app.
  destruct (for_range (parseEDSRespProto_body ToString) _ ls)
    as [[ret priorities]|r]; [|done].
  pose proof (priority_loop priorities
                (seqZ 0 (Z.of_nat (size priorities)))) as Hprio.
  destruct (for_range (priority_body priorities) _ _) as [[]|r]; [done|].
  destruct Hprio as (i & _ & _ & ->). intros Hparse. injection Hparse as <-. done.
Qed.

Lemma parseEDSRespProto_stops_at_first_error_witness :
  (isLocalityError (ErrZeroWeightEndpoint (Sample.ep 0)) ∧
   parseEDSRespProto Sample.ToString
     (Some (messageOf "cluster" None
              [Sample.locality (Sample.region "A") 0 1 [Sample.ep 0]])) =
     failsWith (ErrZeroWeightEndpoint (Sample.ep 0))) ∧
  parseEDSRespProto Sample.ToString
    (Some (messageOf "cluster" None
             ([Sample.locality (Sample.region "A") 0 1 [Sample.ep 0]] ++
              [Sample.anonymous 0 1 []; Sample.locality (Sample.region "A") 0 1 []]))) =
    failsWith (ErrZeroWeightEndpoint (Sample.ep 0)).
Proof.
  split; [split; [exact I | reflexivity]|].
  exact (parseEDSRespProto_stops_at_first_error Sample.ToString "cluster" None
           [Sample.locality (Sample.region "A") 0 1 [Sample.ep 0]]
           [Sample.anonymous 0 1 []; Sample.locality (Sample.region "A") 0 1 []]
           (ErrZeroWeightEndpoint (Sample.ep 0)) I eq_refl).
Defined.

(** ** Entries of weight zero, all at once *)

Lemma loop_filter_surviving ToString ls :
  allIdentified ls → ∀ st,
  for_range (parseEDSRespProto_body ToString) st ls =
  for_range (parseEDSRespProto_body ToString) st
    (filter (λ e, surviving e = true) ls).
Proof.
  induction 1 as [|e ls Hid _ IH]; intros [ret priorities]; [done|].
  destruct (surviving e) eqn:Hs.
  - rewrite surviving_cons_true by done. cbn [for_range].
    destruct (parseEDSRespProto_body ToString (ret, priorities) e); [apply IH|done].
  - rewrite surviving_cons_false by congruence. cbn [for_range].
    destruct (body_cases ToString ret priorities e)
      as [[? _]|[(_ & _ & ->)|[(Hs' & _)|[(Hs' & _)|(Hs' & _)]]]];
      [done | apply IH | congruence..].
Qed.

(** X7.  When every entry carries an identity, the entries of weight zero can be
    removed from the message without changing what the parser returns,
    update or error. *)
Theorem parseEDSRespProto_ignores_zero_weight (ToString : LocalityID → string)
    (name : string) (policy : option pb.Policy)
    (ls : list (option pb.LocalityLbEndpoints)) :
  allIdentified ls →
  parseEDSRespProto ToString (Some (messageOf name policy ls)) =
  parseEDSRespProto ToString
    (Some (messageOf name policy (filter (λ e, weightOf e ≠ 0) ls))).
Proof.
  intros Hids.
  assert (filter (λ e, weightOf e ≠ 0) ls = filter (λ e, surviving e = true) ls)
    as ->.
  { unfold allIdentified in Hids. induction Hids as [|e ls Hid _ IH]; [done|].
    rewrite !filter_cons, IH. pose proof (surviving_true e) as Hs.
    destruct (decide (weightOf e ≠ 0)), (decide (surviving e = true));
      try done; exfalso; naive_solver. }
  rewrite !parse_unfold. cbn [messageOf pb.Endpoints].
  change (afterDrops (messageOf name policy (filter (λ e, surviving e = true) ls)))
    with (afterDrops (messageOf name policy ls)).
  by rewrite <-loop_filter_surviving.
Qed.

Lemma parseEDSRespProto_ignores_zero_weight_witness :
  allIdentified (pb.Endpoints Sample.twoTiers) ∧
  parseEDSRespProto Sample.ToString
    (Some (messageOf "cluster" None (pb.Endpoints Sample.twoTiers))) =
  parseEDSRespProto Sample.ToString
    (Some (messageOf "cluster" None
             (filter (λ e, weightOf e ≠ 0) (pb.Endpoints Sample.twoTiers)))).
Proof.
  assert (allIdentified (pb.Endpoints Sample.twoTiers))
    as Hids by (apply allIdentifiedb_sound; reflexivity).
  split; [exact Hids|].
  exact (parseEDSRespProto_ignores_zero_weight Sample.ToString "cluster" None
           (pb.Endpoints Sample.twoTiers) Hids).
Defined.

(** ** The order of the localities *)

(** X8.  Whether a message is accepted does not depend on the order of its
    locality entries: a reordered message is accepted too, with the same
    drops and with the same localities, reordered. *)
Theorem parseEDSRespProto_order_independent (ToString : LocalityID → string)
    (name : string) (policy : option pb.Policy)
    (ls ls' : list (option pb.LocalityLbEndpoints)) (u : EndpointsUpdate) :
  ls ≡ₚ ls' →
  Forall (λ e, pb.GetPriority e < 2 ^ 32) ls →
  parseEDSRespProto ToString (Some (messageOf name policy ls)) = Returns (u, None) →
  ∃ u', parseEDSRespProto ToString (Some (messageOf name policy ls')) =
          Returns (u', None) ∧
        Drops u' = Drops u ∧ Localities u' ≡ₚ Localities u.
Proof.
  intros Hperm Hbound (-> & Hids & Hzero & Hnodup & Hall)%parse_success_inv.
  cbn [messageOf pb.Endpoints] in *.
  pose proof (proj1 (priorities_contiguous _ (survivingPriorities_bound _ Hbound))
                Hall) as Hcontiguous.
  assert (survivingPriorities ls' = survivingPriorities ls) as Hsame.
  { unfold survivingPriorities. by rewrite Hperm. }
  exists (successUpdate (messageOf name policy ls')). split_and!.
  - apply parse_success_if; cbn [messageOf pb.Endpoints].
    + by rewrite <-Hperm.
    + unfold allIdentified. by rewrite <-Hperm.
    + unfold noZeroWeightEndpoint. by rewrite <-Hperm.
    + apply noDuplicate_NoDup. apply noDuplicate_NoDup in Hnodup.
      by rewrite <-Hperm.
    + by rewrite Hsame.
  - done.
  - unfold successUpdate. cbn [messageOf pb.Endpoints Localities].
    by rewrite Hperm.
Qed.

Lemma parseEDSRespProto_order_independent_witness :
  (rev (pb.Endpoints Sample.twoTiers) ≡ₚ pb.Endpoints Sample.twoTiers ∧
   Forall (λ e, pb.GetPriority e < 2 ^ 32) (rev (pb.Endpoints Sample.twoTiers)) ∧
   parseEDSRespProto Sample.ToString
     (Some (messageOf "cluster" None (rev (pb.Endpoints Sample.twoTiers)))) =
   Returns (successUpdate
              (messageOf "cluster" None (rev (pb.Endpoints Sample.twoTiers))),
            None)) ∧
  ∃ u', parseEDSRespProto Sample.ToString
          (Some (messageOf "cluster" None (pb.Endpoints Sample.twoTiers))) =
          Returns (u', None) ∧
        Drops u' =
          Drops (successUpdate
                   (messageOf "cluster" None (rev (pb.Endpoints Sample.twoTiers)))) ∧
        Localities u' ≡ₚ
          Localities (successUpdate
                        (messageOf "cluster" None (rev (pb.Endpoints Sample.twoTiers)))).
Proof.
  assert (rev (pb.Endpoints Sample.twoTiers) ≡ₚ pb.Endpoints Sample.twoTiers)
    as Hperm by (symmetry; apply Permutation_rev).
  assert (Forall (λ e, pb.GetPriority e < 2 ^ 32) (rev (pb.Endpoints Sample.twoTiers)))
    as Hbound by (repeat constructor).
  split; [split_and!; [exact Hperm | exact Hbound | reflexivity]|].
  exact (parseEDSRespProto_order_independent Sample.ToString "cluster" None
           (rev (pb.Endpoints Sample.twoTiers)) (pb.Endpoints Sample.twoTiers)
           _ Hperm Hbound eq_refl).
Defined.

(** ** Drop policies and localities do not interact *)

Lemma loop_ret_irrelevant ToString ls : ∀ ret ret' priorities,
  match for_range (parseEDSRespProto_body ToString) (ret, priorities) ls with
  | Falls (ret1, priorities1) =>
      ∃ ret2,
        for_range (parseEDSRespProto_body ToString) (ret', priorities) ls =
          Falls (ret2, priorities1)
  | Exits r =>
      for_range (parseEDSRespProto_body ToString) (ret', priorities) ls = Exits r
  end.
Proof.
  induction ls as [|e ls IH]; intros ret ret' priorities; cbn [for_range].
  - by eexists.
  - rewrite !body_eq. destruct (pb.GetLocality e); [|done].
    case_decide; [apply IH|]. case_decide; [done|].
    destruct (parseEndpoints (pb.GetLbEndpoints e)) as [endpoints [err|]]; [done|].
    apply IH.
Qed.

(** X9.  The drop policies of a message never cause an error and have no
    influence on the localities, nor has the name of the cluster: two
    messages with the same locality entries are both accepted or both
    rejected, with the same error, and the localities of their updates are
    the same. *)
Theorem parseEDSRespProto_policy_independent (ToString : LocalityID → string)
    (name name' : string) (policy policy' : option pb.Policy)
    (ls : list (option pb.LocalityLbEndpoints)) :
  ∃ u u' err,
    parseEDSRespProto ToString (Some (messageOf name policy ls)) = Returns (u, err) ∧
    parseEDSRespProto ToString (Some (messageOf name' policy' ls)) = Returns (u', err) ∧
    Localities u = Localities u'.
Proof.
  rewrite !parse_unfold. cbn [messageOf pb.Endpoints].
  pose proof (loop_ret_irrelevant ToString ls
                (afterDrops (messageOf name policy ls))
                (afterDrops (messageOf name' policy' ls)) ∅) as Hrel.
  destruct (for_range _ (afterDrops (messageOf name policy ls), ∅) ls)
    as [[ret priorities]|[u err]] eqn:Hloop.
  - destruct Hrel as [ret2 Hloop']. rewrite Hloop'.
    pose proof (priority_loop priorities
                  (seqZ 0 (Z.of_nat (size priorities)))) as Hprio.
    destruct (for_range (priority_body priorities) _ _) as [[]|r].
    + exists ret, ret2, None. split_and!; [done..|].
      apply loop_falls in Hloop as (_ & _ & -> & _).
      apply loop_falls in Hloop' as (_ & _ & -> & _). done.
    + destruct Hprio as (i & _ & _ & ->). by eexists _, _, _.
  - rewrite Hrel. by exists u, u, err.
Qed.

(** ** The missing priority *)

Lemma seqZ_split (n : Z) (pre suf : list Z) (i : Z) :
  seqZ 0 n = pre ++ i :: suf →
  (0 ≤ i < n)%Z ∧ ∀ j, (0 ≤ j < i)%Z → j ∈ pre.
Proof.
  intros Hsplit.
  assert (i ∈ seqZ 0 n) as Hi%elem_of_seqZ by (rewrite Hsplit; set_solver).
  assert (length pre < Z.to_nat n)%nat as Hlen.
  { rewrite <-(length_seqZ 0 n), Hsplit, length_app. simpl. lia. }
  assert (i = Z.of_nat (length pre)) as ->.
  { pose proof (lookup_seqZ_lt 0 n (length pre)) as Hlook.
    rewrite Hsplit, list_lookup_middle in Hlook by done.
    assert (Some i = Some (0 + Z.of_nat (length pre))%Z) as [= ->] by (apply Hlook; lia).
    lia. }
  split; [lia|]. intros j Hj.
  pose proof (lookup_seqZ_lt 0 n (Z.to_nat j)) as Hlook.
  rewrite Hsplit, lookup_app_l in Hlook by lia.
  apply list_elem_of_lookup. exists (Z.to_nat j). rewrite Hlook by lia. f_equal. lia.
Qed.

(** X10.  The missing-priority error names the least priority that no surviving
    entry has, and there is a surviving entry of a higher priority: the
    error is returned only for a gap.  The map it displays has the
    priorities of the surviving entries as its keys. *)
Theorem parseEDSRespProto_missing_priority (ToString : LocalityID → string)
    (m : pb.ClusterLoadAssignment) (i : Z)
    (priorities : gmap N (gset string)) :
  Forall (λ e, pb.GetPriority e < 2 ^ 32) (pb.Endpoints m) →
  parseEDSRespProto ToString (Some m) =
    failsWith (ErrMissingPriority i priorities) →
  (0 ≤ i)%Z ∧
  (Z.to_N i ∉ survivingPriorities (pb.Endpoints m)) ∧
  (∀ p, p < Z.to_N i → p ∈ survivingPriorities (pb.Endpoints m)) ∧
  (∃ q, q ∈ survivingPriorities (pb.Endpoints m) ∧ Z.to_N i < q) ∧
  dom priorities = survivingPriorities (pb.Endpoints m).
Proof.
  intros Hbound32 Hparse. rewrite parse_unfold in Hparse.
  pose proof (survivingPriorities_bound _ Hbound32) as Hbound.
  destruct (for_range (parseEDSRespProto_body ToString) (afterDrops m, ∅)
              (pb.Endpoints m)) as [[ret ps]|r] eqn:Hloop.
  2: { apply loop_exits in Hloop
         as (pre & e & suf & err & _ & -> & _ &
             [[_ ->]|[(_ & _ & ->)|(_ & ep & _ & _ & ->)]]); done. }
  apply loop_falls in Hloop as (_ & _ & _ & Hdom & _).
  rewrite dom_empty_L, (left_id_L ∅ (∪)) in Hdom.
  assert (size ps = size (survivingPriorities (pb.Endpoints m))) as Hsize
    by (by rewrite <-Hdom, size_dom).
  assert (size ps ≤ N.to_nat (2 ^ 32))%nat as Hsmall.
  { rewrite Hsize. apply size_below. intros x Hx%Hbound. lia. }
  destruct (for_range (priority_body ps) () (seqZ 0 (Z.of_nat (size ps))))
    as [[]|r] eqn:Hprio; [done|].
  injection Hparse as ->.
  apply for_range_exits in Hprio as (pre & i' & suf & [] & Hsplit & Hpre & Hbody).
  unfold priority_body in Hbody.
  destruct (ps !! uint32 i') as [?|] eqn:Hlook; [done|].
  injection Hbody as -> ->.
  apply seqZ_split in Hsplit as [Hi Hbelow].
  rewrite uint32_small in Hlook by lia.
  pose proof (priority_loop priorities pre) as Hprefix. rewrite Hpre in Hprefix.
  rewrite Forall_forall in Hprefix.
  assert (Z.to_N i ∉ survivingPriorities (pb.Endpoints m)) as Hmiss.
  { rewrite <-Hdom. by apply not_elem_of_dom. }
  assert (∀ p, p < Z.to_N i → p ∈ survivingPriorities (pb.Endpoints m)) as Hleast.
  { intros p Hp. rewrite <-Hdom.
    replace p with (uint32 (Z.of_N p)) by (rewrite uint32_small; lia).
    apply Hprefix, Hbelow. lia. }
  split_and!; [lia | done | done | | done].
  destruct (decide (Forall (λ x, x < Z.to_N i)
                      (elements (survivingPriorities (pb.Endpoints m)))))
    as [Hall|Hex].
  - exfalso.
    assert (size (survivingPriorities (pb.Endpoints m)) ≤ Z.to_nat i)%nat; [|lia].
    apply size_below. intros x Hx%elem_of_elements.
    rewrite Forall_forall in Hall. specialize (Hall x Hx). lia.
  - apply not_Forall_Exists in Hex; [|apply _].
    apply Exists_exists in Hex as (q & Hq%elem_of_elements & Hnot). cbn in Hnot.
    exists q. split; [done|].
    assert (q ≠ Z.to_N i) by (by intros ->). lia.
Qed.

Lemma parseEDSRespProto_missing_priority_witness :
  (Forall (λ e, pb.GetPriority e < 2 ^ 32) (pb.Endpoints Sample.gapped) ∧
   parseEDSRespProto Sample.ToString (Some Sample.gapped) =
     failsWith (ErrMissingPriority 1
       (record (record ∅ 0 "A//") 2 "B//"))) ∧
  (0 ≤ 1)%Z ∧
  (Z.to_N 1 ∉ survivingPriorities (pb.Endpoints Sample.gapped)) ∧
  (∀ p, p < Z.to_N 1 → p ∈ survivingPriorities (pb.Endpoints Sample.gapped)) ∧
  (∃ q, q ∈ survivingPriorities (pb.Endpoints Sample.gapped) ∧ Z.to_N 1 < q) ∧
  dom (record (record ∅ 0 "A//") 2 "B//") =
    survivingPriorities (pb.Endpoints Sample.gapped).
Proof.
  assert (Forall (λ e, pb.GetPriority e < 2 ^ 32) (pb.Endpoints Sample.gapped))
    as Hbound by (repeat constructor).
  split; [split; [exact Hbound | reflexivity]|].
  exact (parseEDSRespProto_missing_priority Sample.ToString Sample.gapped 1
           (record (record ∅ 0 "A//") 2 "B//") Hbound eq_refl).
Defined.

(** ** The resource as a whole *)

(** X11.  [unmarshalEndpointsResource] succeeds exactly when the four stages do:
    the resource unwraps, the unwrapped resource has the type of an
    endpoints resource, its value decodes to a message, and the message is
    accepted by [parseEDSRespProto].  It then returns the cluster name of the
    message and the update of the message, with the unwrapped resource (not
    the resource it was given) as raw payload. *)
Theorem unmarshalEndpointsResource_success_iff
    (ToString : LocalityID → string)
    (unwrapResource : option pb.Any → option pb.Any * option string)
    (IsEndpointsResource : string → bool)
    (Unmarshal : list Byte.byte → pb.ClusterLoadAssignment * option string)
    (r : option pb.Any) (name : string) (u : EndpointsUpdate) :
  unmarshalEndpointsResource ToString unwrapResource IsEndpointsResource
    Unmarshal r = Returns (name, u, None) ↔
  ∃ r' cla u0,
    unwrapResource r = (r', None) ∧
    IsEndpointsResource (pb.GetTypeUrl r') = true ∧
    Unmarshal (pb.GetValue' r') = (cla, None) ∧
    parseEDSRespProto ToString (Some cla) = Returns (u0, None) ∧
    name = pb.ClusterName cla ∧
    u = {| Drops := Drops u0; Localities := Localities u0; Raw := r' |}.
Proof.
  split.
  - intros Hr.
    destruct (unmarshal_cases ToString unwrapResource IsEndpointsResource Unmarshal r)
      as [(? & ? & _ & Hr')|[(? & _ & _ & Hr')|[(? & ? & ? & _ & _ & _ & Hr')|
         [(? & ? & ? & _ & _ & _ & _ & Hr')|(r' & cla & H1 & H2 & H3 & Hp & Hr')]]]];
      rewrite Hr' in Hr; try done.
    injection Hr as <- <-. by exists r', cla, (successUpdate cla).
  - intros (r' & cla & u0 & H1 & H2 & H3 & Hp & -> & ->).
    unfold unmarshalEndpointsResource. rewrite H1, H2. cbn [negb].
    rewrite H3, Hp. done.
Qed.

Lemma unmarshalEndpointsResource_success_iff_witness :
  Sample.unmarshalEndpointsResource (Sample.resource Sample.endpointsURL Byte.x01) =
    Returns ("cluster",
             {| Drops := []; Localities := Localities (successUpdate Sample.good);
                Raw := Sample.resource Sample.endpointsURL Byte.x01 |}, None) ∧
  ∃ r' cla u0,
    Sample.unwrapResource (Sample.resource Sample.endpointsURL Byte.x01) = (r', None) ∧
    Sample.IsEndpointsResource (pb.GetTypeUrl r') = true ∧
    Sample.Unmarshal (pb.GetValue' r') = (cla, None) ∧
    parseEDSRespProto Sample.ToString (Some cla) = Returns (u0, None) ∧
    "cluster" = pb.ClusterName cla ∧
    {| Drops := []; Localities := Localities (successUpdate Sample.good);
       Raw := Sample.resource Sample.endpointsURL Byte.x01 |} =
    {| Drops := Drops u0; Localities := Localities u0; Raw := r' |}.
Proof.
  split; [reflexivity|].
  exact (proj1 (unmarshalEndpointsResource_success_iff Sample.ToString
                  Sample.unwrapResource Sample.IsEndpointsResource Sample.Unmarshal
                  (Sample.resource Sample.endpointsURL Byte.x01) "cluster" _)
           eq_refl).
Defined.

(** ** What is not validated *)

(** X12.  A message in which no entry survives, every entry carrying an identity
    and having weight zero (in particular a message without localities), is
    accepted: the update has the drops of the message and no locality. *)
Theorem parseEDSRespProto_nothing_survives (ToString : LocalityID → string)
    (m : pb.ClusterLoadAssignment) :
  Forall (λ e, ¬ lacksID e ∧ weightOf e = 0) (pb.Endpoints m) →
  parseEDSRespProto ToString (Some m) =
  Returns ({| Drops := parseDropPolicy <$>
                         pb.GetDropOverloads (pb.GetPolicy (Some m));
              Localities := [];
              Raw := None |}, None).
Proof.
  intros Hall. rewrite parse_unfold, loop_filter_surviving.
  - assert (filter (λ e, surviving e = true) (pb.Endpoints m) = []) as ->.
    { induction Hall as [|e ls [_ Hw] _ IH]; [done|].
      rewrite surviving_cons_false; [done|].
      rewrite surviving_true. by intros [_ ?]. }
    cbn [for_range]. by rewrite map_size_empty.
  - eapply Forall_impl; [exact Hall|]. by intros e [? _].
Qed.

Lemma parseEDSRespProto_nothing_survives_witness :
  Forall (λ e, ¬ lacksID e ∧ weightOf e = 0)
    (pb.Endpoints (messageOf "cluster" None
       [Sample.locality (Sample.region "A") 4 0 [Sample.ep 0];
        Sample.locality (Sample.region "A") 4 0 []])) ∧
  parseEDSRespProto Sample.ToString
    (Some (messageOf "cluster" None
       [Sample.locality (Sample.region "A") 4 0 [Sample.ep 0];
        Sample.locality (Sample.region "A") 4 0 []])) =
  Returns ({| Drops := []; Localities := []; Raw := None |}, None).
Proof.
  assert (Forall (λ e, ¬ lacksID e ∧ weightOf e = 0)
    (pb.Endpoints (messageOf "cluster" None
       [Sample.locality (Sample.region "A") 4 0 [Sample.ep 0];
        Sample.locality (Sample.region "A") 4 0 []]))) as Hall
    by (repeat constructor; discriminate).
  split; [exact Hall|].
  exact (parseEDSRespProto_nothing_survives Sample.ToString _ Hall).
Defined.

Lemma sameUpToEndpoints_surviving e e' :
  sameUpToEndpoints e e' → surviving e = surviving e'.
Proof. intros (Hl & Hw & _). unfold surviving. by rewrite Hl, Hw. Qed.

Lemma sameUpToEndpoints_key ToString e e' :
  sameUpToEndpoints e e' → localityKey ToString e = localityKey ToString e'.
Proof.
  intros (Hl & _ & Hp & _). unfold localityKey, lidStrOf, localityID.
  by rewrite Hl, Hp.
Qed.

Lemma sameUpToEndpoints_keys ToString ls ls' :
  Forall2 sameUpToEndpoints ls ls' →
  localityKey ToString <$> filter (λ e, surviving e = true) ls =
  localityKey ToString <$> filter (λ e, surviving e = true) ls'.
Proof.
  induction 1 as [|e e' ls ls' He _ IH]; [done|].
  pose proof (sameUpToEndpoints_surviving _ _ He) as Hs.
  destruct (surviving e) eqn:Hse.
  - rewrite !surviving_cons_true, !fmap_cons by done.
    by rewrite IH, (sameUpToEndpoints_key _ _ _ He).
  - rewrite !surviving_cons_false by congruence. done.
Qed.

Lemma sameUpToEndpoints_accepted ToString ls ls' :
  Forall2 sameUpToEndpoints ls ls' →
  allIdentified ls ∧ noZeroWeightEndpoint ls ∧ noDuplicate ToString ls →
  allIdentified ls' ∧ noZeroWeightEndpoint ls' ∧ noDuplicate ToString ls' ∧
  survivingPriorities ls' = survivingPriorities ls ∧
  (Forall (λ e, pb.GetPriority e < 2 ^ 32) ls →
   Forall (λ e, pb.GetPriority e < 2 ^ 32) ls').
Proof.
  intros Hsame (Hids & Hzero & Hnodup). split_and!.
  - unfold allIdentified, lacksID in *. clear Hzero Hnodup.
    induction Hsame as [|e e' ls ls' (Hl & _) _ IH]; [done|].
    apply Forall_cons in Hids as [? ?]. constructor; [by rewrite <-Hl | by apply IH].
  - unfold noZeroWeightEndpoint in *. clear Hids Hnodup.
    induction Hsame as [|e e' ls ls' He _ IH]; [done|].
    apply Forall_cons in Hzero as [Hz ?]. constructor; [|by apply IH].
    rewrite <-(sameUpToEndpoints_surviving _ _ He). intros Hs (ep' & Hin' & Hw').
    apply (Hz Hs). destruct He as (_ & _ & _ & Heps).
    assert (0 ∈ endpointWeight <$> pb.GetLbEndpoints e) as Hin.
    { rewrite Heps. apply list_elem_of_fmap. by exists ep'. }
    apply list_elem_of_fmap in Hin as (ep & Hw & Hin). by exists ep.
  - apply noDuplicate_NoDup. apply noDuplicate_NoDup in Hnodup.
    by rewrite <-(sameUpToEndpoints_keys _ _ _ Hsame).
  - unfold survivingPriorities. f_equal.
    pose proof (sameUpToEndpoints_keys ToString _ _ Hsame) as Hkeys.
    apply (f_equal (fmap fst)) in Hkeys.
    by rewrite <-!list_fmap_compose in Hkeys.
  - clear Hids Hzero Hnodup. intros Hbound.
    induction Hsame as [|e e' ls ls' (_ & _ & Hp & _) _ IH]; [done|].
    apply Forall_cons in Hbound as [? ?]. constructor; [by rewrite <-Hp | by apply IH].
Qed.

(** X13.  The addresses and the health statuses of the endpoints are not
    validated: an accepted message stays accepted when they are changed in
    any way, the identities, weights and priorities of the localities and the
    weights of the endpoints being kept. *)
Theorem parseEDSRespProto_addresses_not_validated (ToString : LocalityID → string)
    (name : string) (policy : option pb.Policy)
    (ls ls' : list (option pb.LocalityLbEndpoints)) (u : EndpointsUpdate) :
  Forall2 sameUpToEndpoints ls ls' →
  Forall (λ e, pb.GetPriority e < 2 ^ 32) ls →
  parseEDSRespProto ToString (Some (messageOf name policy ls)) = Returns (u, None) →
  ∃ u', parseEDSRespProto ToString (Some (messageOf name policy ls')) =
          Returns (u', None) ∧
        Drops u' = Drops u ∧
        length (Localities u') = length (Localities u).
Proof.
  intros Hsame Hbound (-> & Hids & Hzero & Hnodup & Hall)%parse_success_inv.
  cbn [messageOf pb.Endpoints] in *.
  pose proof (proj1 (priorities_contiguous _ (survivingPriorities_bound _ Hbound))
                Hall) as Hcontiguous.
  destruct (sameUpToEndpoints_accepted ToString ls ls' Hsame)
    as (Hids' & Hzero' & Hnodup' & Hprio & Hbound'); [done|].
  exists (successUpdate (messageOf name policy ls')). split_and!.
  - apply parse_success_if; cbn [messageOf pb.Endpoints]; try done.
    + by apply Hbound'.
    + by rewrite Hprio.
  - done.
  - unfold successUpdate. cbn [messageOf pb.Endpoints Localities].
    rewrite !length_fmap.
    pose proof (sameUpToEndpoints_keys ToString _ _ Hsame) as Hkeys.
    apply (f_equal length) in Hkeys. by rewrite !length_fmap in Hkeys.
Qed.

Lemma parseEDSRespProto_addresses_not_validated_witness :
  (Forall2 sameUpToEndpoints (pb.Endpoints Sample.good)
     [Sample.locality (Sample.region "A") 0 1
        [Some {| pb.LEndpoint := None; pb.HealthStatus := 77;
                 pb.LLoadBalancingWeight := Some {| pb.UValue := 1 |} |}]] ∧
   Forall (λ e, pb.GetPriority e < 2 ^ 32) (pb.Endpoints Sample.good) ∧
   parseEDSRespProto Sample.ToString
     (Some (messageOf "cluster" None (pb.Endpoints Sample.good))) =
     Returns (successUpdate Sample.good, None)) ∧
  ∃ u', parseEDSRespProto Sample.ToString
          (Some (messageOf "cluster" None
             [Sample.locality (Sample.region "A") 0 1
                [Some {| pb.LEndpoint := None; pb.HealthStatus := 77;
                         pb.LLoadBalancingWeight := Some {| pb.UValue := 1 |} |}]])) =
          Returns (u', None) ∧
        Drops u' = Drops (successUpdate Sample.good) ∧
        length (Localities u') = length (Localities (successUpdate Sample.good)).
Proof.
  assert (Forall2 sameUpToEndpoints (pb.Endpoints Sample.good)
     [Sample.locality (Sample.region "A") 0 1
        [Some {| pb.LEndpoint := None; pb.HealthStatus := 77;
                 pb.LLoadBalancingWeight := Some {| pb.UValue := 1 |} |}]])
    as Hsame by (repeat constructor).
  assert (Forall (λ e, pb.GetPriority e < 2 ^ 32) (pb.Endpoints Sample.good))
    as Hbound by (repeat constructor).
  split; [split_and!; [exact Hsame | exact Hbound | reflexivity]|].
  exact (parseEDSRespProto_addresses_not_validated Sample.ToString "cluster" None
           _ _ _ Hsame Hbound eq_refl).
Defined.
